(** * TCPThroughputAdaptation: a shallow embedding of
      [src/stream/TCPThroughputAdaptation.cpp] (VideoCore).

    The component samples, once per tick of a background loop, the bytes
    sent and the buffer depths reported by producers, and hands a signed
    control vector and a pivot average to a callback.

    Modelling choices, all visible in the definitions below:
    - [size_t] and [long] are 64-bit (LP64); wrap-around is written out.
    - [std::chrono::steady_clock] time points are integers counting
      nanoseconds; [duration_cast] truncates toward zero ([Z.quot]).
    - [float] keeps the IEEE-754 value domain (finite values, the two
      infinities, NaN) with the IEEE rules for the special values, but
      arithmetic on finite values is exact over the rationals: rounding,
      overflow and the sign of zero are not modelled.
    - libm's [atanf] is a parameter of the model; [powf] is only ever
      called with an integral exponent and is modelled on those.
    - the tick holds both sample mutexes from the snapshot to the clear, so
      one loop iteration is one atomic step of the model. *)

From Stdlib Require Import ZArith QArith Qreduction Qabs Qpower Bool List Lia Lqa.
Import ListNotations.

Local Open Scope Z_scope.

(** ** The [float] value domain *)

Module Flt.

Inductive float : Type :=
| Fin (q : Q)
| PInf
| NInf
| NaN.

Definition Qltb (x y : Q) : bool := negb (Qle_bool y x).

(** [x < y]; false as soon as one side is NaN. *)
Definition flt (x y : float) : bool :=
  match x, y with
  | Fin a, Fin b => Qltb a b
  | Fin _, PInf => true
  | NInf, Fin _ => true
  | NInf, PInf => true
  | _, _ => false
  end.

(** [x <= y]; false as soon as one side is NaN. *)
Definition fle (x y : float) : bool :=
  match x, y with
  | Fin a, Fin b => Qle_bool a b
  | Fin _, PInf => true
  | NInf, Fin _ => true
  | NInf, PInf => true
  | PInf, PInf => true
  | NInf, NInf => true
  | _, _ => false
  end.

(** [x >= y] *)
Definition fge (x y : float) : bool := fle y x.

Definition fadd (x y : float) : float :=
  match x, y with
  | NaN, _ | _, NaN => NaN
  | Fin a, Fin b => Fin (Qred (a + b))
  | PInf, NInf | NInf, PInf => NaN
  | PInf, _ | _, PInf => PInf
  | NInf, _ | _, NInf => NInf
  end.

Definition fsub (x y : float) : float :=
  match x, y with
  | NaN, _ | _, NaN => NaN
  | Fin a, Fin b => Fin (Qred (a - b))
  | PInf, PInf | NInf, NInf => NaN
  | PInf, _ | _, NInf => PInf
  | NInf, _ | _, PInf => NInf
  end.

(** The infinity of the sign of [q] times the sign [pos]; a zero [q] makes
    the product [0 * inf], which is NaN. *)
Definition inf_signed (q : Q) (pos : bool) : float :=
  match (q ?= 0)%Q with
  | Eq => NaN
  | Gt => if pos then PInf else NInf
  | Lt => if pos then NInf else PInf
  end.

Definition fmul (x y : float) : float :=
  match x, y with
  | NaN, _ | _, NaN => NaN
  | Fin a, Fin b => Fin (Qred (a * b))
  | Fin a, PInf | PInf, Fin a => inf_signed a true
  | Fin a, NInf | NInf, Fin a => inf_signed a false
  | PInf, PInf | NInf, NInf => PInf
  | PInf, NInf | NInf, PInf => NInf
  end.

(** Division: a finite non-zero value over zero is an infinity, zero over
    zero and infinity over infinity are NaN. *)
Definition fdiv (x y : float) : float :=
  match x, y with
  | NaN, _ | _, NaN => NaN
  | Fin a, Fin b =>
      if Qeq_bool b 0 then
        match (a ?= 0)%Q with Eq => NaN | Gt => PInf | Lt => NInf end
      else Fin (Qred (a / b))
  | Fin _, PInf | Fin _, NInf => Fin 0
  | PInf, Fin b => if Qltb b 0 then NInf else PInf
  | NInf, Fin b => if Qltb b 0 then PInf else NInf
  | _, _ => NaN
  end.

(** [powf(x, n)] for an integral exponent [n] (the only use in the source:
    [powf(kWeight, m_bwSampleCount)], [powf(kWeight, i)], [powf(a, 2.f)]). *)
Definition powf (x : float) (n : Z) : float :=
  if n =? 0 then Fin 1
  else match x with
       | Fin q =>
           if Qeq_bool q 0 && (n <? 0) then PInf else Fin (Qred (q ^ n))
       | PInf => if 0 <? n then PInf else Fin 0
       | NInf => if 0 <? n then (if Z.odd n then NInf else PInf) else Fin 0
       | NaN => NaN
       end.

(** Conversion of an integer ([float(totalSent)], [float(count)]). *)
Definition of_Z (n : Z) : float := Fin (inject_Z n).

(** [std::min(a, b)] is [(b < a) ? b : a] and [std::max(a, b)] is
    [(a < b) ? b : a]. *)
Definition std_min (a b : float) : float := if flt b a then b else a.
Definition std_max (a b : float) : float := if flt a b then b else a.

End Flt.
Export Flt.

(** ** Machine integers and the clock *)

(** [size_t]: unsigned, 64 bits. *)
Definition size_t_modulus : Z := 2 ^ 64.
Definition wrap_size_t (z : Z) : Z := z mod size_t_modulus.

(** [long(x)] for a [size_t] [x]: the same 64 bits read as two's complement. *)
Definition to_long (x : Z) : Z :=
  if x <? 2 ^ 63 then x else x - size_t_modulus.

(** The result of a [long] operation, wrapped to 64 bits. *)
Definition wrap_long (z : Z) : Z := (z + 2 ^ 63) mod size_t_modulus - 2 ^ 63.

(** A [steady_clock::time_point], in nanoseconds since the clock's epoch;
    a default-constructed time point is the epoch. *)
Definition time_point : Type := Z.
Definition epoch : time_point := 0.

(** [duration_cast<seconds>(d).count()] and
    [duration_cast<microseconds>(d).count()] of a nanosecond duration. *)
Definition to_seconds (d : Z) : Z := Z.quot d 1000000000.
Definition to_microseconds (d : Z) : Z := Z.quot d 1000.

(** ** Constants of the translation unit *)

(** [kPI_2 = M_PI_2] as a [float]: 0x3FC90FDB. *)
Definition kPI_2 : float := Fin (13176795 # 8388608).
(** [kWeight = 0.75f] *)
Definition kWeight : float := Fin (3 # 4).
Definition kPivotSamples : Z := 5.
(** The literal [0.1f]: 0x3DCCCCCD. *)
Definition lit_0_1f : float := Fin (13421773 # 134217728).
(** The literal [1.0e6f]. *)
Definition lit_1e6f : float := Fin 1000000.

(** ** The object *)

Record state : Type := mkState {
  m_hasFirstTurndown : bool;
  m_previousTurndown : time_point;
  m_bwSampleCount : Z;
  m_previousVector : float;
  m_bwWeights : list float;
  m_bwSamples : list float;        (* std::deque, front first *)
  m_turnSamples : list float;      (* std::deque, front first *)
  m_sentSamples : list Z;          (* pending, in arrival order *)
  m_bufferSizeSamples : list Z;    (* pending, in arrival order *)
  prev : time_point                (* the loop's local [prev] *)
}.

(** What one loop iteration hands to [m_callback], together with the value
    [vec] holds after the classification and before the shaping. *)
Record tick_out : Type := mkOut {
  direction : float;
  vector : float;
  pivotAverage : float
}.

(** The constructor: the weights, and the first value of [prev], which the
    thread reads from the clock when it starts. *)
Definition weight_norm (count : Z) : float :=
  fdiv (fsub (Fin 1) (powf kWeight count)) (fsub (Fin 1) kWeight).

Definition make_weights (count : Z) : list float :=
  map (fun i => fdiv (powf kWeight (Z.of_nat i)) (weight_norm count))
      (seq 0 (Z.to_nat count)).

Definition TCPThroughputAdaptation_new (start : time_point) : state :=
  {| m_hasFirstTurndown := false;
     m_previousTurndown := epoch;
     m_bwSampleCount := 30;
     m_previousVector := Fin 0;
     m_bwWeights := make_weights 30;
     m_bwSamples := [];
     m_turnSamples := [];
     m_sentSamples := [];
     m_bufferSizeSamples := [];
     prev := start |}.

(** [addBufferSizeSample] and [addSentBytesSample]: [push_back]. *)
Definition addBufferSizeSample (bufferSize : Z) (s : state) : state :=
  {| m_hasFirstTurndown := m_hasFirstTurndown s;
     m_previousTurndown := m_previousTurndown s;
     m_bwSampleCount := m_bwSampleCount s;
     m_previousVector := m_previousVector s;
     m_bwWeights := m_bwWeights s;
     m_bwSamples := m_bwSamples s;
     m_turnSamples := m_turnSamples s;
     m_sentSamples := m_sentSamples s;
     m_bufferSizeSamples := m_bufferSizeSamples s ++ [bufferSize];
     prev := prev s |}.

Definition addSentBytesSample (bytesSent : Z) (s : state) : state :=
  {| m_hasFirstTurndown := m_hasFirstTurndown s;
     m_previousTurndown := m_previousTurndown s;
     m_bwSampleCount := m_bwSampleCount s;
     m_previousVector := m_previousVector s;
     m_bwWeights := m_bwWeights s;
     m_bwSamples := m_bwSamples s;
     m_turnSamples := m_turnSamples s;
     m_sentSamples := m_sentSamples s ++ [bytesSent];
     m_bufferSizeSamples := m_bufferSizeSamples s;
     prev := prev s |}.

(** ** One iteration of [sampleThread]'s loop *)

(** [d.push_front(x); if (d.size() > cap) d.pop_back();] *)
Definition push_front_capped (cap : Z) (x : float) (d : list float) : list float :=
  let d' := x :: d in
  if cap <? Z.of_nat (length d') then removelast d' else d'.

(** [for (auto & samp : m_sentSamples) totalSent += samp;] *)
Definition total_sent (samples : list Z) : Z :=
  fold_left (fun acc samp => wrap_size_t (acc + samp)) samples 0.

(** [for (i < m_bwSamples.size()) avg += m_bwSamples[i] * m_bwWeights[i];] *)
Definition weighted_average (samples weights : list float) : float :=
  fold_left (fun avg sw => fadd avg (fmul (fst sw) (snd sw)))
            (combine samples weights) (Fin 0).

(** The first [if]/[else if] on the buffer samples: the value of [vec] and
    the new [m_previousTurndown] and [m_hasFirstTurndown]. *)
Definition classify (now : time_point) (previousTurndownDiff : Z)
    (front back : Z) (s : state) : float * time_point * bool :=
  if (back =? 0) && (negb (m_hasFirstTurndown s) || (10 <? previousTurndownDiff))
  then (Fin 1, m_previousTurndown s, m_hasFirstTurndown s)
  else if front <? back
  then (Fin (-1), now, true)
  else (Fin 0, m_previousTurndown s, m_hasFirstTurndown s).

(** The two pushes into [m_turnSamples]. *)
Definition update_pivots (vec detected : float) (front back : Z)
    (bw : list float) (s : state) : list float :=
  let bufferDelta := wrap_long (to_long back - to_long front) in
  let t1 :=
    if flt (m_previousVector s) (Fin 0) && fge vec (Fin 0)
    then push_front_capped kPivotSamples (hd (Fin 0) bw) (m_turnSamples s)
    else m_turnSamples s in
  if (bufferDelta <? 0) && (0 <? back)
  then push_front_capped kPivotSamples detected t1
  else t1.

(** [turnAvg]: the sum of the pivots over their number. *)
Definition turn_average (turn : list float) : float :=
  fdiv (fold_left fadd turn (Fin 0)) (of_Z (Z.of_nat (length turn))).

(** [a = (detectedBytesPerSec - avg) / turnAvg], no test on [turnAvg]. *)
Definition deviation (detected avg turnAvg : float) : float :=
  fdiv (fsub detected avg) turnAvg.

(** [slope = 3.f * powf(a, 2.f)] *)
Definition slope_of (a : float) : float := fmul (Fin 3) (powf a 2).

(** The values the iteration computes before it looks at the buffer
    samples: [timeDelta], [detectedBytesPerSec], the bandwidth window after
    the push, and [avg]. *)
Definition timeDelta (now : time_point) (s : state) : float :=
  fdiv (of_Z (to_microseconds (now - prev s))) lit_1e6f.

Definition detectedBytesPerSec (now : time_point) (s : state) : float :=
  fdiv (of_Z (total_sent (m_sentSamples s))) (timeDelta now s).

Definition bwSamples_pushed (now : time_point) (s : state) : list float :=
  push_front_capped (m_bwSampleCount s) (detectedBytesPerSec now s) (m_bwSamples s).

Definition avg (now : time_point) (s : state) : float :=
  weighted_average (bwSamples_pushed now s) (m_bwWeights s).

Section Model.

(** libm's [atanf]. *)
Variable atanf : float -> float.

(** [std::min(1.f, std::max(atanf(slope) / kPI_2, 0.1f))] *)
Definition magnitude (slope : float) : float :=
  std_min (Fin 1) (std_max (fdiv (atanf slope) kPI_2) lit_0_1f).

(** The block under [if (m_turnSamples.size() > 0)]: the new [vec] and
    [turnAvg]. *)
Definition synthesize (vec detected avg : float) (turn : list float)
    : float * float :=
  match turn with
  | [] => (vec, Fin 0)
  | _ :: _ =>
      let turnAvg := turn_average turn in
      let a := deviation detected avg turnAvg in
      (fmul vec (magnitude (slope_of a)), turnAvg)
  end.

Definition sampleThread_tick (now : time_point) (s : state) : state * tick_out :=
  let previousTurndownDiff := to_seconds (now - m_previousTurndown s) in
  let detected := detectedBytesPerSec now s in
  let bw := bwSamples_pushed now s in
  match m_bufferSizeSamples s with
  | [] =>
      ({| m_hasFirstTurndown := m_hasFirstTurndown s;
          m_previousTurndown := m_previousTurndown s;
          m_bwSampleCount := m_bwSampleCount s;
          m_previousVector := m_previousVector s;
          m_bwWeights := m_bwWeights s;
          m_bwSamples := bw;
          m_turnSamples := m_turnSamples s;
          m_sentSamples := [];
          m_bufferSizeSamples := [];
          prev := now |},
       {| direction := Fin 0; vector := Fin 0; pivotAverage := Fin 0 |})
  | front :: rest =>
      let back := last rest front in
      let '(vec0, turndown, hasFirst) :=
        classify now previousTurndownDiff front back s in
      let turn := update_pivots vec0 detected front back bw s in
      let '(vec, turnAvg) := synthesize vec0 detected (avg now s) turn in
      ({| m_hasFirstTurndown := hasFirst;
          m_previousTurndown := turndown;
          m_bwSampleCount := m_bwSampleCount s;
          m_previousVector := vec;
          m_bwWeights := m_bwWeights s;
          m_bwSamples := bw;
          m_turnSamples := turn;
          m_sentSamples := [];
          m_bufferSizeSamples := [];
          prev := now |},
       {| direction := vec0; vector := vec; pivotAverage := turnAvg |})
  end.

(** ** Runs *)

(** What the producers report between two ticks, and the clock reading of
    the tick that consumes it. *)
Record tick_input : Type := mkInput {
  now_of : time_point;
  sent_of : list Z;
  bufs_of : list Z
}.

Definition feed (i : tick_input) (s : state) : state :=
  fold_left (fun s' b => addBufferSizeSample b s') (bufs_of i)
    (fold_left (fun s' b => addSentBytesSample b s') (sent_of i) s).

Definition step (i : tick_input) (s : state) : state * tick_out :=
  sampleThread_tick (now_of i) (feed i s).

Fixpoint run (inputs : list tick_input) (s : state) : state * list tick_out :=
  match inputs with
  | [] => (s, [])
  | i :: rest =>
      let '(s1, o) := step i s in
      let '(s2, os) := run rest s1 in
      (s2, o :: os)
  end.

End Model.

(** The last reading of a tick is larger than its first one. *)
Definition growing (bufs : list Z) : bool :=
  match bufs with
  | [] => false
  | front :: rest => front <? last rest front
  end.

(** A rational stand-in for [atanf], with the limits, the sign and the
    monotonicity of the arc tangent. It only serves to run the model on
    concrete inputs; the theorems below hold for every [atanf]. *)
Definition atanf_sample (x : float) : float :=
  match x with
  | Fin q => fmul kPI_2 (Fin (Qred (q / (1 + Qabs q))))
  | PInf => kPI_2
  | NInf => fsub (Fin 0) kPI_2
  | NaN => NaN
  end.

(** ** Predicates and inputs of the statements *)

(** The three values the classification gives to [vec]. *)
Definition is_direction (d : float) : Prop :=
  d = Fin (-1) \/ d = Fin 0 \/ d = Fin 1.

(** A finite value between the literal [0.1f] and [1]. *)
Definition unit_magnitude (x : float) : Prop :=
  exists m : Q, x = Fin m /\ (13421773 # 134217728 <= m)%Q /\ (m <= 1)%Q.

(** The capacities hold in [s]. *)
Definition windows_bounded (s : state) : Prop :=
  m_bwSampleCount s = 30 /\
  (length (m_bwSamples s) <= 30)%nat /\
  (length (m_turnSamples s) <= 5)%nat.

(** No sample is pending: the state right after the constructor or a tick. *)
Definition drained (s : state) : Prop :=
  m_sentSamples s = [] /\ m_bufferSizeSamples s = [].

(** The readings of a tick that sees the buffer fill, and of one that sees
    it drain to empty. *)
Definition filling_tick (now : time_point) (sent : list Z) : tick_input :=
  mkInput now sent [100; 500].
Definition draining_tick (now : time_point) (sent : list Z) : tick_input :=
  mkInput now sent [200; 0].

(** ** Producer calls and well-formed histories *)

(** A call of one of the two producer methods. *)
Inductive call : Type :=
| SentBytes (bytesSent : Z)
| BufferSize (bufferSize : Z).

Definition do_call (c : call) (s : state) : state :=
  match c with
  | SentBytes n => addSentBytesSample n s
  | BufferSize n => addBufferSizeSample n s
  end.

(** The calls made between two ticks, in the order the mutexes serve them. *)
Definition do_calls (cs : list call) (s : state) : state :=
  fold_left (fun s' c => do_call c s') cs s.

Definition sent_calls (cs : list call) : list Z :=
  flat_map (fun c => match c with SentBytes n => [n] | BufferSize _ => [] end) cs.

Definition buffer_calls (cs : list call) : list Z :=
  flat_map (fun c => match c with SentBytes _ => [] | BufferSize n => [n] end) cs.

(** The mathematical sum of a list of byte counts. *)
Definition zsum (l : list Z) : Z := fold_right Z.add 0 l.

(** A finite, non-negative [float]. *)
Definition finite_nonneg (x : float) : Prop :=
  exists q : Q, x = Fin q /\ (0 <= q)%Q.

(** The value of a finite [float] (0 on the special values). *)
Definition fin_value (x : float) : Q :=
  match x with
  | Fin q => q
  | _ => 0%Q
  end.

Definition qsum (l : list Q) : Q := fold_right Qplus 0%Q l.

(** Every tick of [inputs] reads the clock at least one microsecond after
    the reading before it, [prev] being the first of those. *)
Fixpoint clock_advances (prev : time_point) (inputs : list tick_input) : Prop :=
  match inputs with
  | [] => True
  | i :: rest => prev + 1000 <= now_of i /\ clock_advances (now_of i) rest
  end.

(** The sum of the products of two lists of rationals, up to the shorter. *)
Fixpoint dot (xs ws : list Q) : Q :=
  match xs, ws with
  | x :: xs', w :: ws' => (x * w + dot xs' ws')%Q
  | _, _ => 0%Q
  end.

(** The values of the 30 weights of the constructor. *)
Definition weights_q : list Q := map fin_value (make_weights 30).

(** * Properties *)

(** ** Comparisons and the clamp *)

Lemma Qltb_true (a b : Q) : Qltb a b = true <-> (a < b)%Q.
Proof.
  unfold Qltb. rewrite negb_true_iff, <- not_true_iff_false, Qle_bool_iff.
  split; [apply Qnot_le_lt | apply Qlt_not_le].
Qed.

Lemma Qltb_false (a b : Q) : Qltb a b = false <-> (b <= a)%Q.
Proof.
  unfold Qltb. rewrite negb_false_iff. apply Qle_bool_iff.
Qed.

Lemma Qred_zero_l (m : Q) : Qred (0 * m) = 0%Q.
Proof. apply (Qred_complete (0 * m) 0). ring. Qed.

(** Whatever [atanf] returns, NaN and the infinities included, the clamp
    gives a finite value in [[0.1f, 1]]: [std::max] keeps a NaN first
    argument, and [std::min(1.f, NaN)] is [1.f]. *)
Lemma magnitude_range (atanf : float -> float) (slope : float) :
  unit_magnitude (magnitude atanf slope).
Proof.
  unfold magnitude, std_min, std_max, unit_magnitude, lit_0_1f.
  destruct (fdiv (atanf slope) kPI_2) as [q | | |]; simpl.
  - destruct (Qltb q (13421773 # 134217728)) eqn:Hlow; simpl.
    + eexists; split; [reflexivity | split; discriminate].
    + apply Qltb_false in Hlow.
      destruct (Qltb q 1) eqn:Hhigh.
      * apply Qltb_true in Hhigh.
        exists q; split; [reflexivity | split; [exact Hlow | apply Qlt_le_weak, Hhigh]].
      * exists 1%Q; split; [reflexivity | split; discriminate].
  - exists 1%Q; split; [reflexivity | split; discriminate].
  - eexists; split; [reflexivity | split; discriminate].
  - exists 1%Q; split; [reflexivity | split; discriminate].
Qed.

Lemma scaled_direction_bounded (d x : float) :
  is_direction d -> unit_magnitude x ->
  fle (Fin (-1)) (fmul d x) = true /\ fle (fmul d x) (Fin 1) = true.
Proof.
  intros Hd (m & -> & Hlo & Hhi).
  destruct Hd as [-> | [-> | ->]]; unfold fmul, fle;
    split; apply Qle_bool_iff; rewrite Qred_correct; lra.
Qed.

Lemma zero_scaled (x : float) : unit_magnitude x -> fmul (Fin 0) x = Fin 0.
Proof.
  intros (m & -> & _). unfold fmul. now rewrite Qred_zero_l.
Qed.

Lemma direction_bounded (d : float) :
  is_direction d -> fle (Fin (-1)) d = true /\ fle d (Fin 1) = true.
Proof. intros [-> | [-> | ->]]; split; reflexivity. Qed.

(** ** The classification *)

Lemma classify_direction now diff front back s :
  is_direction (fst (fst (classify now diff front back s))).
Proof.
  unfold classify, is_direction.
  destruct (_ && _); [simpl; tauto |].
  destruct (front <? back); simpl; tauto.
Qed.

Lemma classify_accepted now diff front back s :
  back = 0 -> (m_hasFirstTurndown s = false \/ 10 < diff) ->
  classify now diff front back s
  = (Fin 1, m_previousTurndown s, m_hasFirstTurndown s).
Proof.
  intros -> H. unfold classify. simpl.
  destruct H as [-> | H]; [reflexivity |].
  apply Z.ltb_lt in H. rewrite H, orb_true_r. reflexivity.
Qed.

Lemma classify_debounced now diff front back s :
  back = 0 -> back <= front -> m_hasFirstTurndown s = true -> diff <= 10 ->
  classify now diff front back s
  = (Fin 0, m_previousTurndown s, m_hasFirstTurndown s).
Proof.
  intros -> Hle Hf Hd. unfold classify. rewrite Hf. simpl.
  destruct (Z.ltb_spec 10 diff); [lia |].
  destruct (Z.ltb_spec front 0); [lia | reflexivity].
Qed.

Lemma classify_filling now diff front back s :
  fst (fst (classify now diff front back s)) = Fin (-1) ->
  classify now diff front back s = (Fin (-1), now, true).
Proof.
  unfold classify.
  destruct (_ && _); [discriminate |].
  destruct (front <? back); [reflexivity | discriminate].
Qed.

Lemma classify_keeps now diff front back s :
  fst (fst (classify now diff front back s)) <> Fin (-1) ->
  snd (fst (classify now diff front back s)) = m_previousTurndown s /\
  snd (classify now diff front back s) = m_hasFirstTurndown s.
Proof.
  unfold classify.
  destruct (_ && _); [simpl; tauto |].
  destruct (front <? back); simpl; [congruence | tauto].
Qed.

(** ** One tick *)

Section Tick.

Variable atanf : float -> float.

(** The iteration on a non-empty buffer sequence, stage by stage. *)
Lemma tick_nonempty now s front rest :
  m_bufferSizeSamples s = front :: rest ->
  let back := last rest front in
  let c := classify now (to_seconds (now - m_previousTurndown s)) front back s in
  let turn := update_pivots (fst (fst c)) (detectedBytesPerSec now s) front back
                (bwSamples_pushed now s) s in
  let y := synthesize atanf (fst (fst c)) (detectedBytesPerSec now s) (avg now s) turn in
  sampleThread_tick atanf now s
  = ({| m_hasFirstTurndown := snd c;
        m_previousTurndown := snd (fst c);
        m_bwSampleCount := m_bwSampleCount s;
        m_previousVector := fst y;
        m_bwWeights := m_bwWeights s;
        m_bwSamples := bwSamples_pushed now s;
        m_turnSamples := turn;
        m_sentSamples := [];
        m_bufferSizeSamples := [];
        prev := now |},
     {| direction := fst (fst c); vector := fst y; pivotAverage := snd y |}).
Proof.
  intros H. unfold sampleThread_tick. rewrite H. cbv zeta.
  destruct (classify _ _ _ _ _) as [[vec0 td] hf]. cbn [fst snd].
  destruct (synthesize _ _ _ _ _) as [vec ta]. reflexivity.
Qed.

Lemma tick_empty now s :
  m_bufferSizeSamples s = [] ->
  sampleThread_tick atanf now s
  = ({| m_hasFirstTurndown := m_hasFirstTurndown s;
        m_previousTurndown := m_previousTurndown s;
        m_bwSampleCount := m_bwSampleCount s;
        m_previousVector := m_previousVector s;
        m_bwWeights := m_bwWeights s;
        m_bwSamples := bwSamples_pushed now s;
        m_turnSamples := m_turnSamples s;
        m_sentSamples := [];
        m_bufferSizeSamples := [];
        prev := now |},
     {| direction := Fin 0; vector := Fin 0; pivotAverage := Fin 0 |}).
Proof.
  intros H. unfold sampleThread_tick. rewrite H. reflexivity.
Qed.

Lemma synthesize_empty vec detected av :
  synthesize atanf vec detected av [] = (vec, Fin 0).
Proof. reflexivity. Qed.

Lemma synthesize_pivots vec detected av x turn :
  synthesize atanf vec detected av (x :: turn)
  = (fmul vec (magnitude atanf
                 (slope_of (deviation detected av (turn_average (x :: turn))))),
     turn_average (x :: turn)).
Proof. reflexivity. Qed.

Lemma tick_accepted now s front rest :
  m_bufferSizeSamples s = front :: rest ->
  last rest front = 0 ->
  (m_hasFirstTurndown s = false \/
   10 < to_seconds (now - m_previousTurndown s)) ->
  direction (snd (sampleThread_tick atanf now s)) = Fin 1 /\
  m_previousTurndown (fst (sampleThread_tick atanf now s)) = m_previousTurndown s /\
  m_hasFirstTurndown (fst (sampleThread_tick atanf now s)) = m_hasFirstTurndown s.
Proof.
  intros Hb Hlast Hacc.
  rewrite (tick_nonempty _ _ _ _ Hb). cbn [fst snd direction
    m_previousTurndown m_hasFirstTurndown].
  rewrite (classify_accepted _ _ _ _ _ Hlast Hacc). cbn [fst snd]. tauto.
Qed.

(** C1 (as amended). On a tick whose buffer sequence is non-empty and ends
    with 0, when the drain is accepted ([m_hasFirstTurndown] is false, or
    the whole seconds elapsed since [m_previousTurndown] exceed 10), [vec]
    is set to +1 and neither [m_previousTurndown] nor [m_hasFirstTurndown]
    is written. *)
Theorem accepted_drain_sets_direction_only now s front rest :
  m_bufferSizeSamples s = front :: rest ->
  last rest front = 0 ->
  (m_hasFirstTurndown s = false \/
   10 < to_seconds (now - m_previousTurndown s)) ->
  let r := sampleThread_tick atanf now s in
  direction (snd r) = Fin 1 /\
  m_previousTurndown (fst r) = m_previousTurndown s /\
  m_hasFirstTurndown (fst r) = m_hasFirstTurndown s.
Proof.
  intros Hb Hlast Hacc r. subst r. now apply tick_accepted with front rest.
Qed.

(** C4 (as amended). On a tick whose buffer sequence is empty the detector
    does nothing: the previous vector, the pivot window and the turndown
    state stay as they are, and the callback receives the two locals at
    their initial value, [(0, 0)]. *)
Theorem empty_tick_emits_zero now s :
  m_bufferSizeSamples s = [] ->
  let r := sampleThread_tick atanf now s in
  vector (snd r) = Fin 0 /\ pivotAverage (snd r) = Fin 0 /\
  m_previousVector (fst r) = m_previousVector s /\
  m_turnSamples (fst r) = m_turnSamples s /\
  m_previousTurndown (fst r) = m_previousTurndown s /\
  m_hasFirstTurndown (fst r) = m_hasFirstTurndown s.
Proof.
  intros Hb r. subst r. rewrite (tick_empty _ _ Hb). cbn. tauto.
Qed.

(** The bounds and the shape of the vector, with the factor named as in the
    model. *)
Lemma vector_shape now s :
  let r := sampleThread_tick atanf now s in
  let o := snd r in
  let mag := magnitude atanf (slope_of
               (deviation (detectedBytesPerSec now s) (avg now s) (pivotAverage o))) in
  is_direction (direction o) /\
  fle (Fin (-1)) (vector o) = true /\ fle (vector o) (Fin 1) = true /\
  unit_magnitude mag /\
  vector o = match m_turnSamples (fst r) with
             | _ :: _ => fmul (direction o) mag
             | [] => direction o
             end.
Proof.
  cbv zeta. destruct (m_bufferSizeSamples s) as [| front rest] eqn:Hb.
  - rewrite (tick_empty _ _ Hb).
    cbn [fst snd direction vector pivotAverage m_turnSamples].
    repeat split; try reflexivity.
    + right; left; reflexivity.
    + apply magnitude_range.
    + destruct (m_turnSamples s); [reflexivity |].
      symmetry. apply zero_scaled, magnitude_range.
  - rewrite (tick_nonempty _ _ _ _ Hb).
    cbn [fst snd direction vector pivotAverage m_turnSamples].
    pose proof (classify_direction now (to_seconds (now - m_previousTurndown s))
                  front (last rest front) s) as Hd.
    destruct (update_pivots _ _ _ _ _ _) as [| x turn].
    + rewrite synthesize_empty. cbn [fst snd].
      destruct (direction_bounded _ Hd) as [Hlo Hhi].
      repeat split; auto. apply magnitude_range.
    + rewrite synthesize_pivots. cbn [fst snd].
      destruct (scaled_direction_bounded _ _ Hd (magnitude_range atanf
        (slope_of (deviation (detectedBytesPerSec now s) (avg now s)
                     (turn_average (x :: turn)))))) as [Hlo Hhi].
      repeat split; auto. apply magnitude_range.
Qed.

(** C5. On every tick the vector handed to the callback lies in [[-1, 1]]:
    [vec] is classified as -1, 0 or +1, and when the pivot window is
    non-empty the vector is that value times the clamp of
    [atanf(3 a^2) / kPI_2] to between [0.1f] and 1, a finite value in that
    range, where [a] is the throughput of the tick minus the average, over
    the pivot average handed to the callback. The formula is written out
    with the arithmetic of [float]: [x] is the quotient by [kPI_2]
    (0x3FC90FDB), [lo] is [std::max(x, 0.1f)] and [mag] is
    [std::min(1.f, lo)]. (A tick without buffer samples skips the shaping
    and hands over 0, which is also 0 times that value.) *)
Theorem vector_within_unit_interval now s :
  let r := sampleThread_tick atanf now s in
  let o := snd r in
  let a := fdiv (fsub (detectedBytesPerSec now s) (avg now s)) (pivotAverage o) in
  let x := fdiv (atanf (fmul (Fin 3) (powf a 2))) (Fin (13176795 # 8388608)) in
  let lo := if flt x (Fin (13421773 # 134217728))
            then Fin (13421773 # 134217728) else x in
  let mag := if flt lo (Fin 1) then lo else Fin 1 in
  is_direction (direction o) /\
  fle (Fin (-1)) (vector o) = true /\ fle (vector o) (Fin 1) = true /\
  unit_magnitude mag /\
  vector o = match m_turnSamples (fst r) with
             | _ :: _ => fmul (direction o) mag
             | [] => direction o
             end.
Proof. exact (vector_shape now s). Qed.

(** C6. When the pivot window is empty at the point where the shaping would
    run, the vector handed to the callback is [vec] as classified. *)
Theorem cold_start_vector_is_direction now s :
  m_turnSamples (fst (sampleThread_tick atanf now s)) = [] ->
  vector (snd (sampleThread_tick atanf now s))
  = direction (snd (sampleThread_tick atanf now s)).
Proof.
  destruct (m_bufferSizeSamples s) as [| front rest] eqn:Hb.
  - rewrite (tick_empty _ _ Hb). reflexivity.
  - rewrite (tick_nonempty _ _ _ _ Hb).
    cbn [fst snd direction vector m_turnSamples].
    intros ->. reflexivity.
Qed.

End Tick.

(** Case analysis on the pending buffer samples of [s], with the tick
    rewritten to its result in each case. *)
Ltac tick_cases s front rest Hb :=
  destruct (m_bufferSizeSamples s) as [| front rest] eqn:Hb;
  [ rewrite (tick_empty _ _ _ Hb) | rewrite (tick_nonempty _ _ _ _ _ Hb) ].

(** ** The bounded windows *)

Lemma removelast_cons_length (x : float) (d : list float) :
  length (removelast (x :: d)) = length d.
Proof.
  revert x. induction d as [| y d IH]; intros x; [reflexivity |].
  change (removelast (x :: y :: d)) with (x :: removelast (y :: d)).
  cbn [length]. now rewrite IH.
Qed.

Lemma push_front_capped_length cap x d :
  0 <= cap -> Z.of_nat (length d) <= cap ->
  Z.of_nat (length (push_front_capped cap x d)) <= cap.
Proof.
  intros Hcap Hd. unfold push_front_capped.
  destruct (Z.ltb_spec cap (Z.of_nat (length (x :: d)))) as [Hlt | Hge].
  - now rewrite removelast_cons_length.
  - exact Hge.
Qed.

(** On a full window the push evicts the oldest entry, the one at the back;
    below the capacity it evicts nothing. *)
Lemma push_front_capped_full cap x d :
  0 < cap -> Z.of_nat (length d) = cap ->
  push_front_capped cap x d = x :: removelast d.
Proof.
  intros Hcap H. unfold push_front_capped.
  destruct (Z.ltb_spec cap (Z.of_nat (length (x :: d)))) as [_ | Hge].
  - destruct d; [simpl in H; lia | reflexivity].
  - simpl length in Hge. lia.
Qed.

Lemma push_front_capped_room cap x d :
  Z.of_nat (length d) < cap ->
  push_front_capped cap x d = x :: d.
Proof.
  intros H. unfold push_front_capped.
  destruct (Z.ltb_spec cap (Z.of_nat (length (x :: d)))) as [Hlt | _].
  - simpl length in Hlt. lia.
  - reflexivity.
Qed.


Lemma update_pivots_length vec detected front back bw s :
  Z.of_nat (length (m_turnSamples s)) <= kPivotSamples ->
  Z.of_nat (length (update_pivots vec detected front back bw s)) <= kPivotSamples.
Proof.
  intros H. unfold update_pivots. cbv zeta.
  assert (Hcap : 0 <= kPivotSamples) by (unfold kPivotSamples; lia).
  destruct (_ && _); destruct (_ && _);
    repeat apply push_front_capped_length; auto.
Qed.

(** ** Feeding samples *)

Lemma fold_addSentBytesSample l : forall s,
  fold_left (fun s' b => addSentBytesSample b s') l s
  = {| m_hasFirstTurndown := m_hasFirstTurndown s;
       m_previousTurndown := m_previousTurndown s;
       m_bwSampleCount := m_bwSampleCount s;
       m_previousVector := m_previousVector s;
       m_bwWeights := m_bwWeights s;
       m_bwSamples := m_bwSamples s;
       m_turnSamples := m_turnSamples s;
       m_sentSamples := m_sentSamples s ++ l;
       m_bufferSizeSamples := m_bufferSizeSamples s;
       prev := prev s |}.
Proof.
  induction l as [| b l IH]; intros s.
  - destruct s; simpl. now rewrite app_nil_r.
  - simpl fold_left. rewrite IH. simpl. now rewrite <- app_assoc.
Qed.

Lemma fold_addBufferSizeSample l : forall s,
  fold_left (fun s' b => addBufferSizeSample b s') l s
  = {| m_hasFirstTurndown := m_hasFirstTurndown s;
       m_previousTurndown := m_previousTurndown s;
       m_bwSampleCount := m_bwSampleCount s;
       m_previousVector := m_previousVector s;
       m_bwWeights := m_bwWeights s;
       m_bwSamples := m_bwSamples s;
       m_turnSamples := m_turnSamples s;
       m_sentSamples := m_sentSamples s;
       m_bufferSizeSamples := m_bufferSizeSamples s ++ l;
       prev := prev s |}.
Proof.
  induction l as [| b l IH]; intros s.
  - destruct s; simpl. now rewrite app_nil_r.
  - simpl fold_left. rewrite IH. simpl. now rewrite <- app_assoc.
Qed.

Lemma feed_eq i s :
  feed i s
  = {| m_hasFirstTurndown := m_hasFirstTurndown s;
       m_previousTurndown := m_previousTurndown s;
       m_bwSampleCount := m_bwSampleCount s;
       m_previousVector := m_previousVector s;
       m_bwWeights := m_bwWeights s;
       m_bwSamples := m_bwSamples s;
       m_turnSamples := m_turnSamples s;
       m_sentSamples := m_sentSamples s ++ sent_of i;
       m_bufferSizeSamples := m_bufferSizeSamples s ++ bufs_of i;
       prev := prev s |}.
Proof.
  unfold feed. rewrite fold_addBufferSizeSample, fold_addSentBytesSample.
  reflexivity.
Qed.

Lemma feed_drained_bufs i s :
  drained s -> m_bufferSizeSamples (feed i s) = bufs_of i.
Proof. intros [_ Hb]. rewrite feed_eq. simpl. now rewrite Hb. Qed.

Section Runs.

Variable atanf : float -> float.

Lemma tick_drained now s : drained (fst (sampleThread_tick atanf now s)).
Proof.
  tick_cases s front rest Hb; split; reflexivity.
Qed.

Lemma new_drained start : drained (TCPThroughputAdaptation_new start).
Proof. split; reflexivity. Qed.

Lemma run_cons i inputs s :
  run atanf (i :: inputs) s
  = (fst (run atanf inputs (fst (step atanf i s))),
     snd (step atanf i s) :: snd (run atanf inputs (fst (step atanf i s)))).
Proof.
  simpl. destruct (step atanf i s) as [s1 o]. simpl.
  destruct (run atanf inputs s1) as [s2 os]. reflexivity.
Qed.

Lemma run_drained inputs : forall s,
  drained s -> drained (fst (run atanf inputs s)).
Proof.
  induction inputs as [| i inputs IH]; intros s Hs; [exact Hs |].
  rewrite run_cons. cbn [fst]. apply IH, tick_drained.
Qed.

Lemma tick_windows_bounded now s :
  windows_bounded s -> windows_bounded (fst (sampleThread_tick atanf now s)).
Proof.
  intros (Hc & Hbw & Hturn).
  assert (Hbw' : (length (bwSamples_pushed now s) <= 30)%nat).
  { unfold bwSamples_pushed. rewrite Hc.
    pose proof (push_front_capped_length 30 (detectedBytesPerSec now s)
                  (m_bwSamples s)). lia. }
  tick_cases s front rest Hb.
  - repeat split; assumption.
  - repeat split; cbn; try assumption.
    match goal with
    | |- (length (update_pivots ?v ?d ?f ?b ?w s) <= 5)%nat =>
        pose proof (update_pivots_length v d f b w s)
    end.
    unfold kPivotSamples in *. lia.
Qed.

Lemma step_windows_bounded i s :
  windows_bounded s -> windows_bounded (fst (step atanf i s)).
Proof.
  intros H. apply tick_windows_bounded. rewrite feed_eq. exact H.
Qed.

(** C7. From the constructor on, whatever the producers report and whenever
    the ticks fire, [m_bwSamples] never holds more than 30 entries and
    [m_turnSamples] never more than 5; each push is followed by its own
    [pop_back], so a tick that pushes two pivots stays within the bound. *)
Theorem windows_never_exceed_capacity start inputs :
  let s := fst (run atanf inputs (TCPThroughputAdaptation_new start)) in
  (length (m_bwSamples s) <= 30)%nat /\ (length (m_turnSamples s) <= 5)%nat.
Proof.
  cbv zeta.
  assert (H : windows_bounded (TCPThroughputAdaptation_new start)).
  { repeat split; simpl; lia. }
  revert H. generalize (TCPThroughputAdaptation_new start).
  induction inputs as [| i inputs IH]; intros s Hs.
  - simpl. destruct Hs as (_ & ? & ?). tauto.
  - rewrite run_cons. cbn [fst]. apply IH, step_windows_bounded, Hs.
Qed.

End Runs.

(** ** The turndown state across ticks *)

Section Debounce.

Variable atanf : float -> float.

Lemma tick_filling_records now s :
  direction (snd (sampleThread_tick atanf now s)) = Fin (-1) ->
  m_hasFirstTurndown (fst (sampleThread_tick atanf now s)) = true /\
  m_previousTurndown (fst (sampleThread_tick atanf now s)) = now.
Proof.
  tick_cases s front rest Hb; [discriminate |].
  cbn [fst snd direction m_hasFirstTurndown m_previousTurndown].
  intros H. rewrite (classify_filling _ _ _ _ _ H). split; reflexivity.
Qed.

Lemma tick_keeps_turndown now s :
  direction (snd (sampleThread_tick atanf now s)) <> Fin (-1) ->
  m_hasFirstTurndown (fst (sampleThread_tick atanf now s)) = m_hasFirstTurndown s /\
  m_previousTurndown (fst (sampleThread_tick atanf now s)) = m_previousTurndown s.
Proof.
  tick_cases s front rest Hb; [split; reflexivity |].
  cbn [fst snd direction m_hasFirstTurndown m_previousTurndown].
  intros H. destruct (classify_keeps _ _ _ _ _ H). split; assumption.
Qed.

Lemma tick_filling_growing now s :
  direction (snd (sampleThread_tick atanf now s)) = Fin (-1) ->
  growing (m_bufferSizeSamples s) = true.
Proof.
  tick_cases s front rest Hb; [discriminate |].
  cbn [snd direction growing].
  unfold classify. destruct (_ && _); [discriminate |].
  destruct (front <? last rest front); [reflexivity | discriminate].
Qed.

Lemma step_not_growing_keeps i s :
  drained s -> growing (bufs_of i) = false ->
  m_hasFirstTurndown (fst (step atanf i s)) = m_hasFirstTurndown s /\
  m_previousTurndown (fst (step atanf i s)) = m_previousTurndown s.
Proof.
  intros Hs Hg. unfold step.
  destruct (tick_keeps_turndown (now_of i) (feed i s)) as [H1 H2].
  - intros Hd. apply tick_filling_growing in Hd.
    rewrite (feed_drained_bufs _ _ Hs) in Hd. congruence.
  - rewrite H1, H2, feed_eq. split; reflexivity.
Qed.

Lemma run_not_growing_keeps inputs : forall s,
  drained s ->
  forallb (fun j => negb (growing (bufs_of j))) inputs = true ->
  m_hasFirstTurndown (fst (run atanf inputs s)) = m_hasFirstTurndown s /\
  m_previousTurndown (fst (run atanf inputs s)) = m_previousTurndown s.
Proof.
  induction inputs as [| i inputs IH]; intros s Hs Hall; [split; reflexivity |].
  simpl in Hall. apply andb_true_iff in Hall. destruct Hall as [Hi Hall].
  apply negb_true_iff in Hi.
  rewrite run_cons. cbn [fst].
  destruct (IH (fst (step atanf i s)) (tick_drained atanf _ _) Hall) as [H1 H2].
  destruct (step_not_growing_keeps i s Hs Hi) as [H3 H4].
  split; congruence.
Qed.

(** C2 (as amended). When a tick classified the buffer as filling (the
    branch that writes [m_previousTurndown] and [m_hasFirstTurndown]) and
    the next tick comes no more than 10 whole seconds later, ends on a
    reading of 0 and did not grow, the next tick's [vec] is classified 0. *)
Theorem drain_after_filling_is_debounced i1 i2 s front rest :
  direction (snd (step atanf i1 s)) = Fin (-1) ->
  bufs_of i2 = front :: rest ->
  last rest front = 0 ->
  last rest front <= front ->
  to_seconds (now_of i2 - now_of i1) <= 10 ->
  direction (snd (step atanf i2 (fst (step atanf i1 s)))) = Fin 0.
Proof.
  intros Hfill Hb Hlast Hle Hsoon.
  destruct (tick_filling_records _ _ Hfill) as [Hflag Hstamp].
  fold (step atanf i1 s) in Hflag, Hstamp.
  pose proof (tick_drained atanf (now_of i1) (feed i1 s)) as Hdr.
  fold (step atanf i1 s) in Hdr.
  set (s1 := fst (step atanf i1 s)) in *.
  assert (Hb2 : m_bufferSizeSamples (feed i2 s1) = front :: rest)
    by (rewrite (feed_drained_bufs _ _ Hdr); exact Hb).
  unfold step at 1. rewrite (tick_nonempty _ _ _ _ _ Hb2). cbn [snd direction].
  rewrite classify_debounced; auto.
  - rewrite feed_eq. exact Hflag.
  - rewrite feed_eq. cbn [m_previousTurndown]. rewrite Hstamp. exact Hsoon.
Qed.

(** C10. [m_hasFirstTurndown] and [m_previousTurndown] are written by the
    filling branch and by nothing else, the accepted drain included; so in
    a run from the constructor in which no tick saw its buffer grow, every
    tick that ends on a reading of 0 classifies [vec] as +1, whatever the
    clock readings. *)
Theorem only_filling_writes_turndown_state :
  (forall now s,
     let r := sampleThread_tick atanf now s in
     (direction (snd r) = Fin (-1) ->
      m_hasFirstTurndown (fst r) = true /\ m_previousTurndown (fst r) = now) /\
     (direction (snd r) <> Fin (-1) ->
      m_hasFirstTurndown (fst r) = m_hasFirstTurndown s /\
      m_previousTurndown (fst r) = m_previousTurndown s)) /\
  (forall start inputs i front rest,
     forallb (fun j => negb (growing (bufs_of j))) inputs = true ->
     bufs_of i = front :: rest ->
     last rest front = 0 ->
     let s := fst (run atanf inputs (TCPThroughputAdaptation_new start)) in
     m_hasFirstTurndown s = false /\
     direction (snd (step atanf i s)) = Fin 1).
Proof.
  split.
  - intros now s r. subst r. split.
    + apply tick_filling_records.
    + apply tick_keeps_turndown.
  - intros start inputs i front rest Hall Hb Hlast s.
    destruct (run_not_growing_keeps inputs _ (new_drained start) Hall) as [Hflag _].
    fold s in Hflag. cbn in Hflag. split; [exact Hflag |].
    assert (Hdr : drained s) by (apply run_drained, new_drained).
    assert (Hb2 : m_bufferSizeSamples (feed i s) = front :: rest)
      by (rewrite (feed_drained_bufs _ _ Hdr); exact Hb).
    unfold step.
    destruct (tick_accepted atanf (now_of i) (feed i s)
                front rest Hb2 Hlast) as [Hd _]; [| exact Hd].
    left. rewrite feed_eq. exact Hflag.
Qed.

End Debounce.

(** ** Scenarios from the constructor *)

Section Scenarios.

Variable atanf : float -> float.


(** A zero divisor never gives a finite quotient. *)
Lemma fdiv_zero_not_finite (x : float) :
  match fdiv x (Fin 0) with Fin _ => False | _ => True end.
Proof.
  destruct x as [a | | |]; simpl; try exact I.
  destruct (a ?= 0)%Q; exact I.
Qed.


End Scenarios.

(** ** The weights *)

(** C8. The 30 weights the constructor computes are, in exact arithmetic,
    [0.75^i / ((1 - 0.75^30) / (1 - 0.75))] for [i] from 0 to 29; the one
    at index 0 is larger than every other one, and they sum to 1. *)
Theorem weights_normalized_geometric start :
  let w := m_bwWeights (TCPThroughputAdaptation_new start) in
  w = map (fun i => Fin (Qred ((3 # 4) ^ Z.of_nat i
                               / ((1 - (3 # 4) ^ 30) / (1 - (3 # 4))))))
          (seq 0 30) /\
  forallb (fun x => flt x (hd NaN w)) (tl w) = true /\
  fold_left fadd w (Fin 0) = Fin 1.
Proof.
  vm_compute. repeat split; reflexivity.
Qed.

(** ** Concrete runs

    The clock starts at 0 and the ticks fire every 5 seconds, the period of
    the loop's [wait_until]. *)

(** C1, witness: a fresh object, one buffer reading of 0, first tick. *)
Lemma accepted_drain_sets_direction_only_witness :
  let s := addBufferSizeSample 0 (TCPThroughputAdaptation_new 0) in
  let r := sampleThread_tick atanf_sample 5000000000 s in
  direction (snd r) = Fin 1 /\
  m_previousTurndown (fst r) = m_previousTurndown s /\
  m_hasFirstTurndown (fst r) = m_hasFirstTurndown s.
Proof.
  exact (accepted_drain_sets_direction_only atanf_sample 5000000000
           (addBufferSizeSample 0 (TCPThroughputAdaptation_new 0)) 0 []
           eq_refl eq_refl (or_introl eq_refl)).
Defined.

(** C1, counterexample: on a fresh object whose only buffer reading is 0,
    the first tick accepts the drain ([m_hasFirstTurndown] is false) and
    sets [vec] to +1, but [m_previousTurndown] is still the epoch, not the
    time of the tick, and [m_hasFirstTurndown] is still false. *)
Lemma accepted_drain_records_nothing :
  let s := addBufferSizeSample 0 (TCPThroughputAdaptation_new 0) in
  let now := 5000000000 in
  let r := sampleThread_tick atanf_sample now s in
  m_bufferSizeSamples s = [0] /\
  m_hasFirstTurndown s = false /\
  ~ (direction (snd r) = Fin 1 /\
     m_previousTurndown (fst r) = now /\
     m_hasFirstTurndown (fst r) = true).
Proof.
  cbv zeta. split; [reflexivity |]. split; [reflexivity |].
  intros (_ & _ & H). vm_compute in H. discriminate H.
Qed.

(** C2, witness: a filling tick at 5 s, a drain to 0 at 10 s. *)
Lemma drain_after_filling_is_debounced_witness :
  direction
    (snd (step atanf_sample (mkInput 10000000000 [] [200; 0])
            (fst (step atanf_sample (mkInput 5000000000 [1000] [100; 500])
                    (TCPThroughputAdaptation_new 0)))))
  = Fin 0.
Proof.
  refine (drain_after_filling_is_debounced atanf_sample
            (mkInput 5000000000 [1000] [100; 500])
            (mkInput 10000000000 [] [200; 0])
            (TCPThroughputAdaptation_new 0) 200 [0]
            eq_refl eq_refl eq_refl _ _).
  - vm_compute. discriminate.
  - vm_compute. discriminate.
Defined.

(** C2, counterexample: two drains to 0 five seconds apart on a fresh
    object. The first is accepted; the second comes less than 10 seconds
    later, ends on 0 and did not grow, and is accepted again: its [vec] is
    +1, not 0. *)
Lemma repeated_drain_is_accepted_again :
  let i1 := mkInput 5000000000 [] [300; 0] in
  let i2 := mkInput 10000000000 [] [200; 0] in
  let r1 := step atanf_sample i1 (TCPThroughputAdaptation_new 0) in
  let r2 := step atanf_sample i2 (fst r1) in
  direction (snd r1) = Fin 1 /\
  now_of i2 - now_of i1 < 10 * 1000000000 /\
  last (bufs_of i2) 0 = 0 /\
  last (bufs_of i2) 0 <= hd 0 (bufs_of i2) /\
  direction (snd r2) = Fin 1 /\
  direction (snd r2) <> Fin 0.
Proof.
  cbv zeta. repeat split; try reflexivity; vm_compute; discriminate.
Qed.


(** C4, witness: the first tick of a fresh object, no sample reported. *)
Lemma empty_tick_emits_zero_witness :
  let s := TCPThroughputAdaptation_new 0 in
  let r := sampleThread_tick atanf_sample 5000000000 s in
  vector (snd r) = Fin 0 /\ pivotAverage (snd r) = Fin 0 /\
  m_previousVector (fst r) = m_previousVector s /\
  m_turnSamples (fst r) = m_turnSamples s /\
  m_previousTurndown (fst r) = m_previousTurndown s /\
  m_hasFirstTurndown (fst r) = m_hasFirstTurndown s.
Proof.
  exact (empty_tick_emits_zero atanf_sample 5000000000
           (TCPThroughputAdaptation_new 0) eq_refl).
Defined.

(** C4, counterexample: a filling tick hands [(-1, 0)] to the callback; the
    next tick has no buffer sample and hands over [(0, 0)], not the pair of
    the tick before. *)
Lemma empty_tick_does_not_repeat_previous_output :
  let rB := step atanf_sample (filling_tick 5000000000 [1000])
              (TCPThroughputAdaptation_new 0) in
  let rE := step atanf_sample (mkInput 10000000000 [] []) (fst rB) in
  bufs_of (mkInput 10000000000 [] []) = [] /\
  (vector (snd rB), pivotAverage (snd rB)) = (Fin (-1), Fin 0) /\
  (vector (snd rE), pivotAverage (snd rE)) = (Fin 0, Fin 0) /\
  (vector (snd rE), pivotAverage (snd rE))
  <> (vector (snd rB), pivotAverage (snd rB)).
Proof.
  cbv zeta. repeat split; try reflexivity. vm_compute. discriminate.
Qed.

(** C6, witness: the filling tick on a fresh object. *)
Lemma cold_start_vector_is_direction_witness :
  let s := feed (filling_tick 5000000000 [1000]) (TCPThroughputAdaptation_new 0) in
  vector (snd (sampleThread_tick atanf_sample 5000000000 s))
  = direction (snd (sampleThread_tick atanf_sample 5000000000 s)).
Proof.
  exact (cold_start_vector_is_direction atanf_sample 5000000000
           (feed (filling_tick 5000000000 [1000]) (TCPThroughputAdaptation_new 0))
           eq_refl).
Defined.

(** C10, witness: three drains to 0 within one second of each other. *)
Lemma only_filling_writes_turndown_state_witness :
  let s := fst (run atanf_sample
                  [mkInput 5000000000 [] [300; 0];
                   mkInput 5500000000 [] [0]]
                  (TCPThroughputAdaptation_new 0)) in
  m_hasFirstTurndown s = false /\
  direction (snd (step atanf_sample (mkInput 6000000000 [] [200; 0]) s)) = Fin 1.
Proof.
  exact (proj2 (only_filling_writes_turndown_state atanf_sample) 0
           [mkInput 5000000000 [] [300; 0]; mkInput 5500000000 [] [0]]
           (mkInput 6000000000 [] [200; 0]) 200 [0]
           eq_refl eq_refl eq_refl).
Defined.

(** * Further properties of the code *)

(** ** The sample collector *)

Lemma total_sent_from (l : list Z) : forall acc,
  0 <= acc < size_t_modulus ->
  fold_left (fun a samp => wrap_size_t (a + samp)) l acc
  = (acc + zsum l) mod size_t_modulus.
Proof.
  unfold wrap_size_t.
  induction l as [| x l IH]; intros acc Hacc; simpl.
  - rewrite Z.add_0_r. symmetry. now apply Z.mod_small.
  - rewrite IH by (apply Z.mod_pos_bound; reflexivity).
    rewrite Zplus_mod_idemp_l. f_equal. lia.
Qed.

(** [totalSent] is the sum of the reported byte counts modulo 2^64: the
    accumulator wraps, and the order of the reports does not matter. *)
Theorem total_sent_is_sum_mod (l : list Z) :
  total_sent l = zsum l mod size_t_modulus /\
  0 <= total_sent l < size_t_modulus.
Proof.
  unfold total_sent.
  rewrite total_sent_from by (unfold size_t_modulus; lia).
  split; [reflexivity |]. apply Z.mod_pos_bound. reflexivity.
Qed.

(** Producer calls of the two kinds can interleave in any way: what the next
    tick sees is the sent reports in their order and the buffer reports in
    theirs, appended to what was already pending. *)
Theorem interleaved_calls_split (cs : list call) (now : time_point) (s : state) :
  do_calls cs s
  = feed (mkInput now (sent_calls cs) (buffer_calls cs)) s.
Proof.
  rewrite feed_eq. cbn [sent_of bufs_of]. unfold do_calls.
  revert s. induction cs as [| c cs IH]; intros s.
  - destruct s; simpl. now rewrite !app_nil_r.
  - simpl fold_left. rewrite IH.
    destruct c; simpl; rewrite <- ?app_assoc; reflexivity.
Qed.

Lemma zsum_app (l l' : list Z) : zsum (l ++ l') = zsum l + zsum l'.
Proof.
  induction l as [| x l IH]; simpl; [reflexivity | rewrite IH; lia].
Qed.

Lemma total_sent_app_mod (p l l' : list Z) :
  zsum l mod size_t_modulus = zsum l' mod size_t_modulus ->
  total_sent (p ++ l) = total_sent (p ++ l').
Proof.
  intros H. unfold total_sent.
  rewrite !total_sent_from by (unfold size_t_modulus; lia).
  rewrite !zsum_app, !Z.add_0_l.
  rewrite (Zplus_mod (zsum p) (zsum l)), (Zplus_mod (zsum p) (zsum l')).
  now rewrite H.
Qed.

Section Ignored.

Variable atanf : float -> float.

(** The tick reads the sent reports only through [total_sent]. *)
Lemma tick_sent_ext hf pt cnt pv w bw turn sent sent' bufs pr now :
  total_sent sent = total_sent sent' ->
  sampleThread_tick atanf now (mkState hf pt cnt pv w bw turn sent bufs pr)
  = sampleThread_tick atanf now (mkState hf pt cnt pv w bw turn sent' bufs pr).
Proof.
  intros H.
  unfold sampleThread_tick, avg, bwSamples_pushed, detectedBytesPerSec,
    timeDelta, classify, update_pivots.
  cbn [m_hasFirstTurndown m_previousTurndown m_bwSampleCount m_previousVector
       m_bwWeights m_bwSamples m_turnSamples m_sentSamples
       m_bufferSizeSamples prev].
  rewrite H. reflexivity.
Qed.

(** The tick reads the buffer reports only through the first and the last. *)
Lemma tick_bufs_ext hf pt cnt pv w bw turn sent front rest rest' pr now :
  last rest front = last rest' front ->
  sampleThread_tick atanf now (mkState hf pt cnt pv w bw turn sent (front :: rest) pr)
  = sampleThread_tick atanf now (mkState hf pt cnt pv w bw turn sent (front :: rest') pr).
Proof.
  intros H.
  unfold sampleThread_tick, avg, bwSamples_pushed, detectedBytesPerSec,
    timeDelta, classify, update_pivots.
  cbn [m_hasFirstTurndown m_previousTurndown m_bwSampleCount m_previousVector
       m_bwWeights m_bwSamples m_turnSamples m_sentSamples
       m_bufferSizeSamples prev].
  rewrite H. reflexivity.
Qed.

(** Two histories of sent reports with the same sum modulo 2^64 (a
    reordering, a split of one report in two, added reports of 0 bytes)
    give the same tick: the same new state and the same callback
    arguments. *)
Theorem tick_depends_on_sent_sum now sent sent' bufs s :
  zsum sent mod size_t_modulus = zsum sent' mod size_t_modulus ->
  step atanf (mkInput now sent bufs) s = step atanf (mkInput now sent' bufs) s.
Proof.
  intros H. unfold step. rewrite !feed_eq. cbn [now_of sent_of bufs_of].
  apply tick_sent_ext, total_sent_app_mod, H.
Qed.

(** Of the buffer depths reported since the last tick only the first and
    the last are read: the readings in between change nothing. *)
Theorem tick_ignores_middle_readings now sent front middle back s :
  m_bufferSizeSamples s = [] ->
  step atanf (mkInput now sent (front :: middle ++ [back])) s
  = step atanf (mkInput now sent [front; back]) s.
Proof.
  intros Hb. unfold step. rewrite !feed_eq. cbn [now_of sent_of bufs_of].
  rewrite Hb. cbn [app].
  apply tick_bufs_ext. rewrite last_last. reflexivity.
Qed.

End Ignored.

(** ** The classification and the pivot pushes *)

Lemma to_seconds_gt_10 (d : Z) : 10 < to_seconds d <-> 11000000000 <= d.
Proof.
  unfold to_seconds. Z.quot_rem_to_equations. lia.
Qed.



Section Classification.

Variable atanf : float -> float.

(** A tick whose last reading is above its first one classifies -1, whatever
    the turndown state, and records the turndown: the flag is set and the
    timestamp is the clock reading of the tick. *)
Theorem growing_buffer_turns_down now s front rest :
  m_bufferSizeSamples s = front :: rest ->
  0 <= front ->
  front < last rest front ->
  let r := sampleThread_tick atanf now s in
  direction (snd r) = Fin (-1) /\
  m_hasFirstTurndown (fst r) = true /\
  m_previousTurndown (fst r) = now.
Proof.
  intros Hb Hf Hg r. subst r. rewrite (tick_nonempty _ _ _ _ _ Hb).
  cbn [fst snd direction m_hasFirstTurndown m_previousTurndown].
  unfold classify.
  destruct (Z.eqb_spec (last rest front) 0) as [E | _]; [lia |].
  cbn [andb]. apply Z.ltb_lt in Hg. rewrite Hg. repeat split.
Qed.

(** After a turndown, a tick that ends on a reading of 0 classifies +1
    exactly when at least 11 seconds separate it from the turndown: the
    elapsed time is truncated to whole seconds before it is compared with
    10. Before that it classifies 0. *)
Theorem drain_accepted_from_11_seconds now s front rest :
  m_bufferSizeSamples s = front :: rest ->
  last rest front = 0 ->
  0 <= front ->
  m_hasFirstTurndown s = true ->
  direction (snd (sampleThread_tick atanf now s))
  = if 11000000000 <=? now - m_previousTurndown s then Fin 1 else Fin 0.
Proof.
  intros Hb Hlast Hf Hflag. rewrite (tick_nonempty _ _ _ _ _ Hb).
  cbn [snd direction].
  destruct (Z.leb_spec 11000000000 (now - m_previousTurndown s)) as [H | H].
  - rewrite classify_accepted; [reflexivity | assumption |].
    right. now apply to_seconds_gt_10.
  - rewrite classify_debounced; try assumption; [reflexivity | lia |].
    destruct (Z_lt_le_dec 10 (to_seconds (now - m_previousTurndown s)))
      as [Hc | Hc]; [apply to_seconds_gt_10 in Hc; lia | exact Hc].
Qed.

(** A tick whose last reading is not 0 and not above the first one is
    neutral: it classifies 0, hands exactly 0 to the callback even when the
    pivot window is not empty, and leaves the turndown state alone. *)
Theorem steady_or_shrinking_is_neutral now s front rest :
  m_bufferSizeSamples s = front :: rest ->
  last rest front <> 0 ->
  last rest front <= front ->
  let r := sampleThread_tick atanf now s in
  direction (snd r) = Fin 0 /\
  vector (snd r) = Fin 0 /\
  m_previousVector (fst r) = Fin 0 /\
  m_hasFirstTurndown (fst r) = m_hasFirstTurndown s /\
  m_previousTurndown (fst r) = m_previousTurndown s.
Proof.
  intros Hb Hnz Hle r. subst r. rewrite (tick_nonempty _ _ _ _ _ Hb).
  cbn [fst snd direction vector m_previousVector m_hasFirstTurndown
       m_previousTurndown].
  assert (Hc : classify now (to_seconds (now - m_previousTurndown s)) front
                 (last rest front) s
               = (Fin 0, m_previousTurndown s, m_hasFirstTurndown s)).
  { unfold classify.
    destruct (Z.eqb_spec (last rest front) 0) as [E | _]; [contradiction |].
    cbn [andb]. destruct (Z.ltb_spec front (last rest front)); [lia |].
    reflexivity. }
  rewrite Hc. cbn [fst snd].
  assert (Hv : forall turn,
             fst (synthesize atanf (Fin 0) (detectedBytesPerSec now s)
                    (avg now s) turn) = Fin 0).
  { intros [| x turn]; [reflexivity |].
    rewrite synthesize_pivots. cbn [fst]. apply zero_scaled, magnitude_range. }
  rewrite Hv. repeat split.
Qed.



End Classification.

(** ** The bandwidth estimator *)

Lemma push_front_capped_firstn cap x d :
  (length d <= cap)%nat ->
  push_front_capped (Z.of_nat cap) x d = firstn cap (x :: d).
Proof.
  intros H. unfold push_front_capped.
  destruct (Z.ltb_spec (Z.of_nat cap) (Z.of_nat (length (x :: d)))) as [Hlt | Hge].
  - assert (Hlen : length (x :: d) = S cap) by (simpl in *; lia).
    rewrite removelast_firstn_len, Hlen. reflexivity.
  - symmetry. apply firstn_all2. lia.
Qed.

Section Estimator.

Variable atanf : float -> float.

Lemma tick_bwSamples now s :
  m_bwSamples (fst (sampleThread_tick atanf now s)) = bwSamples_pushed now s.
Proof. tick_cases s front rest Hb; reflexivity. Qed.

Lemma tick_bwSampleCount now s :
  m_bwSampleCount (fst (sampleThread_tick atanf now s)) = m_bwSampleCount s.
Proof. tick_cases s front rest Hb; reflexivity. Qed.

(** Every tick, with or without buffer samples, puts its throughput at the
    front of the bandwidth window and keeps the 30 most recent values. *)
Theorem bandwidth_window_keeps_latest_30 now s :
  m_bwSampleCount s = 30 ->
  (length (m_bwSamples s) <= 30)%nat ->
  m_bwSamples (fst (sampleThread_tick atanf now s))
  = firstn 30 (detectedBytesPerSec now s :: m_bwSamples s).
Proof.
  intros Hc Hlen. rewrite tick_bwSamples. unfold bwSamples_pushed. rewrite Hc.
  now apply (push_front_capped_firstn 30).
Qed.

Lemma run_bw_length inputs : forall s,
  m_bwSampleCount s = 30 ->
  (length (m_bwSamples s) <= 30)%nat ->
  length (m_bwSamples (fst (run atanf inputs s)))
  = Nat.min (length (m_bwSamples s) + length inputs) 30.
Proof.
  induction inputs as [| i inputs IH]; intros s Hc Hlen.
  - simpl. lia.
  - rewrite run_cons. cbn [fst]. unfold step.
    assert (Hc' : m_bwSampleCount (feed i s) = 30) by (rewrite feed_eq; exact Hc).
    assert (Hlen' : (length (m_bwSamples (feed i s)) <= 30)%nat)
      by (rewrite feed_eq; exact Hlen).
    rewrite IH.
    + rewrite tick_bwSamples. unfold bwSamples_pushed. rewrite Hc'.
      rewrite (push_front_capped_firstn 30) by exact Hlen'.
      rewrite length_firstn. rewrite feed_eq. simpl length. lia.
    + now rewrite tick_bwSampleCount.
    + rewrite tick_bwSamples. unfold bwSamples_pushed. rewrite Hc'.
      rewrite (push_front_capped_firstn 30) by exact Hlen'.
      rewrite length_firstn. lia.
Qed.

(** From the constructor on, the bandwidth window holds one throughput per
    tick run so far, ticks without buffer samples included, up to 30. *)
Theorem bandwidth_window_fills_one_per_tick start inputs :
  length (m_bwSamples (fst (run atanf inputs (TCPThroughputAdaptation_new start))))
  = Nat.min (length inputs) 30.
Proof.
  rewrite run_bw_length; [reflexivity | reflexivity | simpl; lia].
Qed.

End Estimator.

(** ** The throughput of a tick *)

Lemma Qeq_bool_false (x y : Q) : ~ (x == y)%Q -> Qeq_bool x y = false.
Proof.
  intros H. destruct (Qeq_bool x y) eqn:E; [| reflexivity].
  apply Qeq_bool_iff in E. contradiction.
Qed.

Lemma Qeq_bool_true (x y : Q) : (x == y)%Q -> Qeq_bool x y = true.
Proof. apply Qeq_bool_iff. Qed.

Lemma fdiv_by_positive (a b : Q) :
  (0 < b)%Q ->
  fdiv (Fin a) (Fin b) = Fin (Qred (a / b)).
Proof.
  intros Hb. unfold fdiv. rewrite Qeq_bool_false; [reflexivity |].
  intros E. rewrite E in Hb. now apply Qlt_irrefl in Hb.
Qed.

Lemma Qdiv_nonneg (a b : Q) : (0 <= a)%Q -> (0 < b)%Q -> (0 <= a / b)%Q.
Proof.
  intros Ha Hb. apply Qle_shift_div_l; [exact Hb |]. now rewrite Qmult_0_l.
Qed.

Lemma Qdiv_pos (a b : Q) : (0 < a)%Q -> (0 < b)%Q -> (0 < a / b)%Q.
Proof.
  intros Ha Hb. apply Qlt_shift_div_l; [exact Hb |]. now rewrite Qmult_0_l.
Qed.

Lemma Qdiv_zero_iff (a b : Q) : (0 < b)%Q -> (a / b == 0)%Q <-> (a == 0)%Q.
Proof.
  intros Hb. split; intros H.
  - assert (E : (a == a / b * b)%Q) by (field; lra). rewrite E, H. ring.
  - rewrite H. field. lra.
Qed.

Lemma total_sent_nonneg (l : list Z) : 0 <= total_sent l.
Proof.
  unfold total_sent. rewrite total_sent_from by (unfold size_t_modulus; lia).
  apply Z.mod_pos_bound. reflexivity.
Qed.

Lemma to_microseconds_pos (d : Z) : 1000 <= d -> 1 <= to_microseconds d.
Proof. unfold to_microseconds. Z.quot_rem_to_equations. lia. Qed.

Lemma to_microseconds_zero (d : Z) : -1000 < d < 1000 -> to_microseconds d = 0.
Proof. unfold to_microseconds. Z.quot_rem_to_equations. lia. Qed.

Lemma detected_value now s :
  1000 <= now - prev s ->
  exists q : Q,
    detectedBytesPerSec now s = Fin q /\
    (q == inject_Z (total_sent (m_sentSamples s)) * 1000000
          / inject_Z (to_microseconds (now - prev s)))%Q /\
    (0 <= q)%Q.
Proof.
  intros Hd. apply to_microseconds_pos in Hd.
  set (us := to_microseconds (now - prev s)) in *.
  pose proof (total_sent_nonneg (m_sentSamples s)) as Hts.
  set (ts := total_sent (m_sentSamples s)) in *.
  assert (Hus : (0 < inject_Z us)%Q)
    by (change (inject_Z 0 < inject_Z us)%Q; rewrite <- Zlt_Qlt; lia).
  assert (Hts' : (0 <= inject_Z ts)%Q)
    by (change (inject_Z 0 <= inject_Z ts)%Q; rewrite <- Zle_Qle; lia).
  assert (Ht : (0 < Qred (inject_Z us / 1000000))%Q).
  { rewrite Qred_correct. apply Qdiv_pos; [exact Hus | reflexivity]. }
  unfold detectedBytesPerSec, timeDelta, of_Z, lit_1e6f. fold us ts.
  rewrite (fdiv_by_positive (inject_Z us) 1000000) by reflexivity.
  rewrite fdiv_by_positive by exact Ht.
  eexists. split; [reflexivity |]. split.
  - rewrite !Qred_correct. field. intros E. rewrite E in Hus.
    now apply Qlt_irrefl in Hus.
  - rewrite Qred_correct. apply Qdiv_nonneg; [exact Hts' | exact Ht].
Qed.

(** When the clock advanced by at least one microsecond since the previous
    tick, the throughput of the tick is a finite, non-negative number, and
    it is 0 exactly when [totalSent] is 0. *)
Theorem throughput_finite_when_clock_advanced now s :
  1000 <= now - prev s ->
  exists q : Q,
    detectedBytesPerSec now s = Fin q /\
    (0 <= q)%Q /\
    ((q == 0)%Q <-> total_sent (m_sentSamples s) = 0).
Proof.
  intros Hd. destruct (detected_value now s Hd) as (q & Hq & Hv & Hpos).
  exists q. split; [exact Hq |]. split; [exact Hpos |].
  pose proof (to_microseconds_pos _ Hd) as Hus.
  set (us := to_microseconds (now - prev s)) in *.
  set (ts := total_sent (m_sentSamples s)) in *.
  assert (Hus' : (0 < inject_Z us)%Q)
    by (change (inject_Z 0 < inject_Z us)%Q; rewrite <- Zlt_Qlt; lia).
  rewrite Hv, Qdiv_zero_iff by exact Hus'. split.
  - intros H. unfold Qeq in H. simpl in H. lia.
  - intros ->. reflexivity.
Qed.

(** When less than one microsecond separates the tick from the previous
    one, [timeDelta] is 0 and the division is not guarded: the throughput is
    NaN if no byte was sent and +infinity otherwise. *)
Theorem throughput_not_finite_without_elapsed_time now s :
  -1000 < now - prev s < 1000 ->
  detectedBytesPerSec now s
  = if total_sent (m_sentSamples s) =? 0 then NaN else PInf.
Proof.
  intros Hd. unfold detectedBytesPerSec, timeDelta.
  rewrite (to_microseconds_zero _ Hd).
  pose proof (total_sent_nonneg (m_sentSamples s)) as Hts.
  set (ts := total_sent (m_sentSamples s)) in *.
  change (fdiv (of_Z 0) lit_1e6f) with (Fin 0).
  unfold of_Z, fdiv. change (Qeq_bool 0 0) with true. cbv iota.
  destruct (Z.eqb_spec ts 0) as [-> | Hnz]; [reflexivity |].
  assert (H : (0 < inject_Z ts)%Q)
    by (change (inject_Z 0 < inject_Z ts)%Q; rewrite <- Zlt_Qlt; lia).
  apply Qgt_alt in H. now rewrite H.
Qed.

(** ** The weighted average *)

Lemma weighted_fold_nan (l : list (float * float)) :
  fold_left (fun a sw => fadd a (fmul (fst sw) (snd sw))) l NaN = NaN.
Proof. induction l as [| p l IH]; [reflexivity | exact IH]. Qed.

Lemma fmul_nan_l (y : float) : fmul NaN y = NaN.
Proof. reflexivity. Qed.

Lemma fadd_nan_r (x : float) : fadd x NaN = NaN.
Proof. destruct x; reflexivity. Qed.

Lemma weighted_fold_poisoned (samples weights : list float) : forall acc,
  In NaN samples -> (length samples <= length weights)%nat ->
  fold_left (fun a sw => fadd a (fmul (fst sw) (snd sw)))
    (combine samples weights) acc = NaN.
Proof.
  revert weights. induction samples as [| x samples IH]; intros weights acc Hin Hlen.
  - destruct Hin.
  - destruct weights as [| w weights]; [simpl in Hlen; lia |].
    simpl combine. simpl fold_left. destruct Hin as [-> | Hin].
    + cbn [fst snd]. rewrite fmul_nan_l, fadd_nan_r. apply weighted_fold_nan.
    + apply IH; [exact Hin | simpl in Hlen; lia].
Qed.

(** One NaN among the samples that get a weight makes the average NaN: a
    throughput computed over a zero [timeDelta] with no byte sent spoils
    [avg] for as long as it stays in the bandwidth window. *)
Theorem nan_sample_spoils_average (samples weights : list float) :
  In NaN samples -> (length samples <= length weights)%nat ->
  weighted_average samples weights = NaN.
Proof. intros Hin Hlen. now apply weighted_fold_poisoned. Qed.

Lemma weighted_fold_value (xs : list Q) : forall (ws : list Q) (a : Q),
  exists q : Q,
    fold_left (fun acc sw => fadd acc (fmul (fst sw) (snd sw)))
      (combine (map Fin xs) (map Fin ws)) (Fin a) = Fin q /\
    (q == a + dot xs ws)%Q.
Proof.
  induction xs as [| x xs IH]; intros ws a.
  - exists a. split; [reflexivity | simpl; ring].
  - destruct ws as [| w ws].
    + exists a. split; [reflexivity | simpl; ring].
    + simpl map. simpl combine. simpl fold_left. cbn [fst snd fmul fadd].
      destruct (IH ws (Qred (a + Qred (x * w)))) as (q & Hq & Hv).
      exists q. split; [exact Hq |].
      rewrite Hv, !Qred_correct. simpl dot. ring.
Qed.

Lemma weighted_average_value (xs ws : list Q) :
  exists q : Q,
    weighted_average (map Fin xs) (map Fin ws) = Fin q /\ (q == dot xs ws)%Q.
Proof.
  destruct (weighted_fold_value xs ws 0) as (q & Hq & Hv).
  exists q. split; [exact Hq | rewrite Hv; ring].
Qed.

Lemma make_weights_finite : make_weights 30 = map Fin weights_q.
Proof. vm_compute. reflexivity. Qed.




Lemma dot_bounds (M : Q) (xs : list Q) : forall ws,
  (0 <= M)%Q ->
  Forall (fun x => 0 <= x /\ x <= M)%Q xs ->
  Forall (fun w => 0 <= w)%Q ws ->
  (0 <= dot xs ws /\ dot xs ws <= M * qsum ws)%Q.
Proof.
  intros ws HM Hxs. revert ws.
  induction Hxs as [| x xs [Hx0 HxM] _ IH]; intros ws Hws.
  - simpl. assert (H : (0 <= qsum ws)%Q).
    { induction Hws as [| w ws Hw _ IHw]; simpl; [apply Qle_refl |].
      change 0%Q with (0 + 0)%Q at 1. now apply Qplus_le_compat. }
    split; [apply Qle_refl | now apply Qmult_le_0_compat].
  - destruct Hws as [| w ws Hw Hws]; simpl.
    + split; [apply Qle_refl | rewrite Qmult_0_r; apply Qle_refl].
    + destruct (IH ws Hws) as [Hlo Hhi]. split; nra.
Qed.

Lemma weights_q_nonneg : Forall (fun w => 0 <= w)%Q weights_q.
Proof.
  apply Forall_forall. intros w Hin.
  assert (Hall : forallb (fun w => Qle_bool 0 w) weights_q = true)
    by (vm_compute; reflexivity).
  rewrite forallb_forall in Hall. apply Qle_bool_iff, Hall, Hin.
Qed.

Lemma weights_q_sum : (qsum weights_q == 1)%Q.
Proof. apply Qeq_bool_iff. vm_compute. reflexivity. Qed.

(** In exact arithmetic, the average of at most 30 finite throughputs
    between 0 and [M] is a finite value between 0 and [M]: the weights are
    non-negative and sum to 1. (Rounding of the weights and of the sum is
    outside this statement.) *)
Theorem average_within_sample_range (M : Q) (xs : list Q) :
  (length xs <= 30)%nat ->
  (0 <= M)%Q ->
  Forall (fun x => 0 <= x /\ x <= M)%Q xs ->
  exists q : Q,
    weighted_average (map Fin xs) (make_weights 30) = Fin q /\
    (0 <= q)%Q /\ (q <= M)%Q.
Proof.
  intros _ HM Hxs. rewrite make_weights_finite.
  destruct (weighted_average_value xs weights_q) as (q & Hq & Hv).
  exists q. split; [exact Hq |].
  destruct (dot_bounds M xs weights_q HM Hxs weights_q_nonneg) as [Hlo Hhi].
  rewrite weights_q_sum, Qmult_1_r in Hhi. rewrite Hv. split; assumption.
Qed.

(** ** The pivot average *)

Lemma sum_fold_value (qs : list Q) : forall a : Q,
  exists q : Q,
    fold_left fadd (map Fin qs) (Fin a) = Fin q /\ (q == a + qsum qs)%Q.
Proof.
  induction qs as [| x qs IH]; intros a.
  - exists a. split; [reflexivity | simpl; ring].
  - simpl map. simpl fold_left. cbn [fadd].
    destruct (IH (Qred (a + x))) as (q & Hq & Hv).
    exists q. split; [exact Hq |]. rewrite Hv, Qred_correct. simpl. ring.
Qed.

Lemma qsum_nonneg (qs : list Q) :
  Forall (fun x => 0 <= x)%Q qs -> (0 <= qsum qs)%Q.
Proof.
  induction 1 as [| x qs Hx _ IH]; simpl; [apply Qle_refl | lra].
Qed.

Lemma qsum_zero_iff (qs : list Q) :
  Forall (fun x => 0 <= x)%Q qs ->
  (qsum qs == 0)%Q <-> Forall (fun x => x == 0)%Q qs.
Proof.
  induction 1 as [| x qs Hx Hqs IH]; simpl.
  - split; [constructor | reflexivity].
  - pose proof (qsum_nonneg qs Hqs) as Hs. split.
    + intros H. constructor; [lra |]. apply IH. lra.
    + intros H. inversion H as [| ? ? Hx0 Hrest]; subst.
      apply IH in Hrest. lra.
Qed.

Lemma length_pos_Q (A : Type) (l : list A) :
  l <> [] -> (0 < inject_Z (Z.of_nat (length l)))%Q.
Proof.
  intros H. change (inject_Z 0 < inject_Z (Z.of_nat (length l)))%Q.
  rewrite <- Zlt_Qlt. destruct l; [contradiction | simpl; lia].
Qed.

Lemma turn_average_value (qs : list Q) :
  qs <> [] ->
  exists q : Q,
    turn_average (map Fin qs) = Fin q /\
    (q == qsum qs / inject_Z (Z.of_nat (length qs)))%Q.
Proof.
  intros Hne. unfold turn_average, of_Z. rewrite length_map.
  destruct (sum_fold_value qs 0) as (t & Ht & Hv). rewrite Ht.
  rewrite fdiv_by_positive by (now apply length_pos_Q).
  eexists. split; [reflexivity |]. rewrite Qred_correct, Hv.
  now rewrite Qplus_0_l.
Qed.

(** Over a non-empty window of finite, non-negative pivots the average is
    finite and non-negative, it is 0 exactly when every pivot is 0, and the
    unguarded division that computes [a] from finite operands gives a finite
    [a] exactly when it is not 0. *)
Theorem pivot_average_zero_iff_all_zero (d av : Q) (qs : list Q) :
  qs <> [] ->
  Forall (fun x => 0 <= x)%Q qs ->
  exists q : Q,
    turn_average (map Fin qs) = Fin q /\
    (0 <= q)%Q /\
    ((q == 0)%Q <-> Forall (fun x => x == 0)%Q qs) /\
    ((exists a : Q, deviation (Fin d) (Fin av) (Fin q) = Fin a)
     <-> ~ (q == 0)%Q).
Proof.
  intros Hne Hpos.
  destruct (turn_average_value qs Hne) as (q & Hq & Hv).
  pose proof (length_pos_Q _ qs Hne) as Hn.
  exists q. split; [exact Hq |]. split; [| split].
  - rewrite Hv. apply Qdiv_nonneg; [now apply qsum_nonneg | exact Hn].
  - rewrite Hv, Qdiv_zero_iff by exact Hn. now apply qsum_zero_iff.
  - unfold deviation. cbn [fsub fdiv]. split.
    + intros [a Ha] Hz. rewrite (Qeq_bool_true _ _ Hz) in Ha.
      destruct (Qred (d - av) ?= 0)%Q; discriminate Ha.
    + intros Hz. rewrite (Qeq_bool_false _ _ Hz). eexists. reflexivity.
Qed.

(** ** Finite values along a run *)

Lemma finite_nonneg_zero : finite_nonneg (Fin 0).
Proof. exists 0%Q. split; [reflexivity | apply Qle_refl]. Qed.

Lemma Forall_removelast (A : Type) (P : A -> Prop) (l : list A) :
  Forall P l -> Forall P (removelast l).
Proof.
  induction 1 as [| x l Hx Hl IH]; [constructor |].
  destruct l as [| y l]; [constructor |].
  change (removelast (x :: y :: l)) with (x :: removelast (y :: l)).
  constructor; assumption.
Qed.

Lemma push_front_capped_Forall (P : float -> Prop) cap x d :
  P x -> Forall P d -> Forall P (push_front_capped cap x d).
Proof.
  intros Hx Hd. unfold push_front_capped.
  destruct (cap <? _); [apply Forall_removelast |]; now constructor.
Qed.

Lemma update_pivots_Forall (P : float -> Prop) vec detected front back bw s :
  P (Fin 0) -> P detected -> Forall P bw -> Forall P (m_turnSamples s) ->
  Forall P (update_pivots vec detected front back bw s).
Proof.
  intros H0 Hd Hbw Hturn. unfold update_pivots. cbv zeta.
  assert (Hhd : P (hd (Fin 0) bw)) by (destruct Hbw; assumption).
  destruct (_ && _); destruct (_ && _);
    repeat apply push_front_capped_Forall; assumption.
Qed.

Lemma finite_nonneg_values (l : list float) :
  Forall finite_nonneg l ->
  l = map Fin (map fin_value l) /\
  Forall (fun x => 0 <= x)%Q (map fin_value l).
Proof.
  induction 1 as [| x l (q & -> & Hq) _ [IH1 IH2]]; [split; constructor |].
  simpl. split; [now rewrite <- IH1 | now constructor].
Qed.

Lemma turn_average_finite_nonneg (turn : list float) :
  turn <> [] -> Forall finite_nonneg turn -> finite_nonneg (turn_average turn).
Proof.
  intros Hne Hall. destruct (finite_nonneg_values turn Hall) as [E Hpos].
  assert (Hne' : map fin_value turn <> []) by (destruct turn; [contradiction | discriminate]).
  destruct (turn_average_value _ Hne') as (q & Hq & Hv).
  rewrite <- E in Hq. exists q. split; [exact Hq |].
  rewrite Hv. apply Qdiv_nonneg; [now apply qsum_nonneg | now apply length_pos_Q].
Qed.

Section FiniteRuns.

Variable atanf : float -> float.

Lemma tick_finite now s :
  prev s + 1000 <= now ->
  Forall finite_nonneg (m_bwSamples s) ->
  Forall finite_nonneg (m_turnSamples s) ->
  Forall finite_nonneg (m_bwSamples (fst (sampleThread_tick atanf now s))) /\
  Forall finite_nonneg (m_turnSamples (fst (sampleThread_tick atanf now s))) /\
  finite_nonneg (pivotAverage (snd (sampleThread_tick atanf now s))) /\
  prev (fst (sampleThread_tick atanf now s)) = now.
Proof.
  intros Hclock Hbw Hturn.
  assert (Hdet : finite_nonneg (detectedBytesPerSec now s)).
  { destruct (detected_value now s) as (q & Hq & _ & Hpos); [lia |].
    exists q. split; assumption. }
  assert (Hbw' : Forall finite_nonneg (bwSamples_pushed now s))
    by (now apply push_front_capped_Forall).
  tick_cases s front rest Hb;
    cbn [fst snd m_bwSamples m_turnSamples pivotAverage prev].
  - repeat split; try assumption. apply finite_nonneg_zero.
  - split; [exact Hbw' |].
    match goal with
    | |- context [synthesize atanf ?v ?d ?a ?t] =>
        assert (Ht : Forall finite_nonneg t)
          by (apply update_pivots_Forall;
              [apply finite_nonneg_zero | assumption ..]);
        destruct t as [| x turn] eqn:Et
    end.
    + rewrite synthesize_empty. cbn [snd].
      repeat split; [constructor | apply finite_nonneg_zero].
    + rewrite synthesize_pivots. cbn [snd].
      repeat split; [exact Ht |].
      apply turn_average_finite_nonneg; [discriminate | exact Ht].
Qed.

Lemma run_finite inputs : forall s,
  clock_advances (prev s) inputs ->
  Forall finite_nonneg (m_bwSamples s) ->
  Forall finite_nonneg (m_turnSamples s) ->
  Forall finite_nonneg (m_bwSamples (fst (run atanf inputs s))) /\
  Forall finite_nonneg (m_turnSamples (fst (run atanf inputs s))) /\
  Forall (fun o => finite_nonneg (pivotAverage o)) (snd (run atanf inputs s)).
Proof.
  induction inputs as [| i inputs IH]; intros s Hclock Hbw Hturn.
  - simpl. repeat split; [assumption | assumption | constructor].
  - destruct Hclock as [Hi Hrest]. rewrite run_cons. cbn [fst snd].
    destruct (tick_finite (now_of i) (feed i s)) as (H1 & H2 & H3 & H4);
      try (rewrite feed_eq; assumption).
    fold (step atanf i s) in H1, H2, H3, H4.
    destruct (IH (fst (step atanf i s))) as (G1 & G2 & G3);
      [rewrite H4; exact Hrest | assumption | assumption |].
    repeat split; [assumption | assumption | now constructor].
Qed.

(** In a run from the constructor in which the clock advances by at least
    one microsecond between ticks, every throughput in the bandwidth window
    and every pivot is a finite, non-negative number, and so is every pivot
    average handed to the callback (0 while there is no pivot). *)
Theorem windows_finite_when_clock_advances start inputs :
  clock_advances start inputs ->
  let r := run atanf inputs (TCPThroughputAdaptation_new start) in
  Forall finite_nonneg (m_bwSamples (fst r)) /\
  Forall finite_nonneg (m_turnSamples (fst r)) /\
  Forall (fun o => finite_nonneg (pivotAverage o)) (snd r).
Proof.
  intros Hclock r. subst r. apply run_finite; [exact Hclock | constructor ..].
Qed.

End FiniteRuns.

(** ** The shaping *)

Lemma scaled_sign_and_floor (d x : float) :
  is_direction d -> unit_magnitude x ->
  flt (fmul d x) (Fin 0) = flt d (Fin 0) /\
  flt (Fin 0) (fmul d x) = flt (Fin 0) d /\
  (fmul d x = Fin 0 \/
   fle lit_0_1f (fmul d x) = true \/
   fle (fmul d x) (fsub (Fin 0) lit_0_1f) = true).
Proof.
  intros Hd (m & -> & Hlo & Hhi).
  destruct Hd as [-> | [-> | ->]]; unfold fmul.
  - split; [| split].
    + change (flt (Fin (-1)) (Fin 0)) with true. apply Qltb_true.
      rewrite Qred_correct. lra.
    + change (flt (Fin 0) (Fin (-1))) with false. apply Qltb_false.
      rewrite Qred_correct. lra.
    + right; right. apply Qle_bool_iff.
      change (Qred (0 - (13421773 # 134217728))) with (-13421773 # 134217728)%Q.
      rewrite Qred_correct. lra.
  - rewrite Qred_zero_l. split; [reflexivity | split; [reflexivity | now left]].
  - split; [| split].
    + change (flt (Fin 1) (Fin 0)) with false. apply Qltb_false.
      rewrite Qred_correct. lra.
    + change (flt (Fin 0) (Fin 1)) with true. apply Qltb_true.
      rewrite Qred_correct. lra.
    + right; left. apply Qle_bool_iff. rewrite Qred_correct. lra.
Qed.

Lemma direction_sign_and_floor (d : float) :
  is_direction d ->
  d = Fin 0 \/ fle lit_0_1f d = true \/ fle d (fsub (Fin 0) lit_0_1f) = true.
Proof.
  intros [-> | [-> | ->]]; [right; right | left | right; left]; reflexivity.
Qed.

Section Shaping.

Variable atanf : float -> float.

(** The vector handed to the callback has the sign of the classified value:
    it is negative exactly when the tick classified -1 and positive exactly
    when it classified +1. It is either exactly 0 or at least [0.1f] away
    from 0: the shaping never cancels a direction. *)
Theorem vector_keeps_sign_and_floor now s :
  let o := snd (sampleThread_tick atanf now s) in
  flt (vector o) (Fin 0) = flt (direction o) (Fin 0) /\
  flt (Fin 0) (vector o) = flt (Fin 0) (direction o) /\
  (vector o = Fin 0 \/
   fle lit_0_1f (vector o) = true \/
   fle (vector o) (fsub (Fin 0) lit_0_1f) = true).
Proof.
  cbv zeta. tick_cases s front rest Hb; cbn [snd direction vector].
  - repeat split; try reflexivity. now left.
  - pose proof (classify_direction now (to_seconds (now - m_previousTurndown s))
                  front (last rest front) s) as Hd.
    destruct (update_pivots _ _ _ _ _ _) as [| x turn].
    + rewrite synthesize_empty. cbn [fst].
      repeat split; try reflexivity. now apply direction_sign_and_floor.
    + rewrite synthesize_pivots. cbn [fst].
      apply scaled_sign_and_floor; [exact Hd | apply magnitude_range].
Qed.

(** When the throughput of the tick equals the average and the pivot average
    is finite and not 0, [a] is 0; with an [atanf] that maps 0 to 0 the
    magnitude is then the floor [0.1f]. *)
Theorem no_deviation_gives_floor vec (d av p : Q) x turn :
  atanf (Fin 0) = Fin 0 ->
  (d == av)%Q ->
  turn_average (x :: turn) = Fin p ->
  ~ (p == 0)%Q ->
  synthesize atanf vec (Fin d) (Fin av) (x :: turn)
  = (fmul vec lit_0_1f, Fin p).
Proof.
  intros Hatan Heq Hp Hnz. rewrite synthesize_pivots, Hp.
  assert (Ha : deviation (Fin d) (Fin av) (Fin p) = Fin 0).
  { unfold deviation. cbn [fsub fdiv]. rewrite (Qeq_bool_false _ _ Hnz).
    f_equal. apply (Qred_complete _ 0). rewrite Qred_correct, Heq.
    field. exact Hnz. }
  rewrite Ha. unfold magnitude.
  change (slope_of (Fin 0)) with (Fin 0). rewrite Hatan. reflexivity.
Qed.

(** When [a] is NaN (a NaN average or throughput, or 0 over a zero pivot
    average) and [atanf] maps NaN to NaN, [std::max] keeps the NaN and
    [std::min(1.f, NaN)] is 1: the shaping is switched off and the
    classified value goes to the callback as it is. *)
Theorem nan_deviation_saturates vec detected av x turn :
  atanf NaN = NaN ->
  is_direction vec ->
  deviation detected av (turn_average (x :: turn)) = NaN ->
  synthesize atanf vec detected av (x :: turn)
  = (vec, turn_average (x :: turn)).
Proof.
  intros Hatan Hd Ha. rewrite synthesize_pivots, Ha. unfold magnitude.
  change (slope_of NaN) with NaN. rewrite Hatan.
  change (std_min (Fin 1) (std_max (fdiv NaN kPI_2) lit_0_1f)) with (Fin 1).
  destruct Hd as [-> | [-> | ->]]; reflexivity.
Qed.

End Shaping.

(** ** Concrete instances of the further properties *)

Lemma tick_depends_on_sent_sum_witness :
  step atanf_sample (mkInput 5000000000 [1000; 0; 500] [100; 500])
    (TCPThroughputAdaptation_new 0)
  = step atanf_sample (mkInput 5000000000 [500; 1000] [100; 500])
      (TCPThroughputAdaptation_new 0).
Proof.
  exact (tick_depends_on_sent_sum atanf_sample 5000000000 [1000; 0; 500]
           [500; 1000] [100; 500] (TCPThroughputAdaptation_new 0) eq_refl).
Defined.

Lemma tick_ignores_middle_readings_witness :
  step atanf_sample (mkInput 5000000000 [1000] [200; 150; 170; 0])
    (TCPThroughputAdaptation_new 0)
  = step atanf_sample (mkInput 5000000000 [1000] [200; 0])
      (TCPThroughputAdaptation_new 0).
Proof.
  exact (tick_ignores_middle_readings atanf_sample 5000000000 [1000] 200
           [150; 170] 0 (TCPThroughputAdaptation_new 0) eq_refl).
Defined.

Lemma growing_buffer_turns_down_witness :
  let s := feed (filling_tick 5000000000 [1000]) (TCPThroughputAdaptation_new 0) in
  let r := sampleThread_tick atanf_sample 5000000000 s in
  direction (snd r) = Fin (-1) /\
  m_hasFirstTurndown (fst r) = true /\
  m_previousTurndown (fst r) = 5000000000.
Proof.
  apply (growing_buffer_turns_down atanf_sample 5000000000
           (feed (filling_tick 5000000000 [1000]) (TCPThroughputAdaptation_new 0))
           100 [500]).
  - reflexivity.
  - lia.
  - simpl. lia.
Defined.

Lemma drain_accepted_from_11_seconds_witness :
  let sB := fst (step atanf_sample (filling_tick 5000000000 [1000])
                   (TCPThroughputAdaptation_new 0)) in
  direction (snd (sampleThread_tick atanf_sample 16000000000
                    (feed (draining_tick 16000000000 []) sB))) = Fin 1 /\
  direction (snd (sampleThread_tick atanf_sample 15999999999
                    (feed (draining_tick 15999999999 []) sB))) = Fin 0.
Proof.
  split.
  - apply (drain_accepted_from_11_seconds atanf_sample 16000000000
             (feed (draining_tick 16000000000 [])
                (fst (step atanf_sample (filling_tick 5000000000 [1000])
                        (TCPThroughputAdaptation_new 0))))
             200 [0]); [reflexivity | reflexivity | lia | reflexivity].
  - apply (drain_accepted_from_11_seconds atanf_sample 15999999999
             (feed (draining_tick 15999999999 [])
                (fst (step atanf_sample (filling_tick 5000000000 [1000])
                        (TCPThroughputAdaptation_new 0))))
             200 [0]); [reflexivity | reflexivity | lia | reflexivity].
Defined.

Lemma steady_or_shrinking_is_neutral_witness :
  let s := feed (mkInput 5000000000 [1000] [300; 200])
             (TCPThroughputAdaptation_new 0) in
  let r := sampleThread_tick atanf_sample 5000000000 s in
  direction (snd r) = Fin 0 /\
  vector (snd r) = Fin 0 /\
  m_previousVector (fst r) = Fin 0 /\
  m_hasFirstTurndown (fst r) = m_hasFirstTurndown s /\
  m_previousTurndown (fst r) = m_previousTurndown s.
Proof.
  apply (steady_or_shrinking_is_neutral atanf_sample 5000000000
           (feed (mkInput 5000000000 [1000] [300; 200])
              (TCPThroughputAdaptation_new 0)) 300 [200]).
  - reflexivity.
  - simpl. lia.
  - simpl. lia.
Defined.



Lemma bandwidth_window_keeps_latest_30_witness :
  m_bwSamples (fst (sampleThread_tick atanf_sample 5000000000
                      (TCPThroughputAdaptation_new 0)))
  = firstn 30 (detectedBytesPerSec 5000000000 (TCPThroughputAdaptation_new 0)
               :: m_bwSamples (TCPThroughputAdaptation_new 0)).
Proof.
  apply (bandwidth_window_keeps_latest_30 atanf_sample 5000000000
           (TCPThroughputAdaptation_new 0)).
  - reflexivity.
  - simpl. lia.
Defined.

Lemma throughput_finite_when_clock_advanced_witness :
  let s := addSentBytesSample 1000 (TCPThroughputAdaptation_new 0) in
  exists q : Q,
    detectedBytesPerSec 5000000000 s = Fin q /\
    (0 <= q)%Q /\
    ((q == 0)%Q <-> total_sent (m_sentSamples s) = 0).
Proof.
  apply (throughput_finite_when_clock_advanced 5000000000
           (addSentBytesSample 1000 (TCPThroughputAdaptation_new 0))).
  simpl. lia.
Defined.

Lemma throughput_not_finite_without_elapsed_time_witness :
  detectedBytesPerSec 500 (addSentBytesSample 1000 (TCPThroughputAdaptation_new 0))
  = PInf /\
  detectedBytesPerSec 500 (TCPThroughputAdaptation_new 0) = NaN.
Proof.
  split.
  - apply (throughput_not_finite_without_elapsed_time 500
             (addSentBytesSample 1000 (TCPThroughputAdaptation_new 0))).
    simpl. lia.
  - apply (throughput_not_finite_without_elapsed_time 500
             (TCPThroughputAdaptation_new 0)).
    simpl. lia.
Defined.

Lemma nan_sample_spoils_average_witness :
  weighted_average [Fin 200; NaN; Fin 100] (make_weights 30) = NaN.
Proof.
  apply (nan_sample_spoils_average [Fin 200; NaN; Fin 100] (make_weights 30)).
  - right; left; reflexivity.
  - vm_compute. lia.
Defined.


Lemma average_within_sample_range_witness :
  exists q : Q,
    weighted_average (map Fin [1; 10; 5]%Q) (make_weights 30) = Fin q /\
    (0 <= q)%Q /\ (q <= 10)%Q.
Proof.
  apply (average_within_sample_range 10 [1; 10; 5]%Q).
  - simpl. lia.
  - discriminate.
  - repeat constructor; discriminate.
Defined.

Lemma pivot_average_zero_iff_all_zero_witness :
  exists q : Q,
    turn_average (map Fin [0; 4]%Q) = Fin q /\
    (0 <= q)%Q /\
    ((q == 0)%Q <-> Forall (fun x => x == 0)%Q [0; 4]%Q) /\
    ((exists a : Q, deviation (Fin 1) (Fin 0) (Fin q) = Fin a)
     <-> ~ (q == 0)%Q).
Proof.
  apply (pivot_average_zero_iff_all_zero 1 0 [0; 4]%Q).
  - discriminate.
  - repeat constructor; discriminate.
Defined.

Lemma windows_finite_when_clock_advances_witness :
  let r := run atanf_sample
             [filling_tick 5000000000 [1000]; draining_tick 10000000000 [500]]
             (TCPThroughputAdaptation_new 0) in
  Forall finite_nonneg (m_bwSamples (fst r)) /\
  Forall finite_nonneg (m_turnSamples (fst r)) /\
  Forall (fun o => finite_nonneg (pivotAverage o)) (snd r).
Proof.
  apply (windows_finite_when_clock_advances atanf_sample 0
           [filling_tick 5000000000 [1000]; draining_tick 10000000000 [500]]).
  simpl. lia.
Defined.

Lemma no_deviation_gives_floor_witness :
  synthesize atanf_sample (Fin 1) (Fin 100) (Fin 100) [Fin 50]
  = (fmul (Fin 1) lit_0_1f, Fin 50).
Proof.
  apply (no_deviation_gives_floor atanf_sample (Fin 1) 100 100 50 (Fin 50) []).
  - reflexivity.
  - reflexivity.
  - reflexivity.
  - intros H. vm_compute in H. discriminate H.
Defined.

Lemma nan_deviation_saturates_witness :
  synthesize atanf_sample (Fin 1) (Fin 0) (Fin 0) [Fin 0]
  = (Fin 1, turn_average [Fin 0]).
Proof.
  apply (nan_deviation_saturates atanf_sample (Fin 1) (Fin 0) (Fin 0) (Fin 0) []).
  - reflexivity.
  - right; right; reflexivity.
  - reflexivity.
Defined.

(** ** The weights for any sample count *)

Lemma kWeight_pow_succ (n : nat) :
  ((3 # 4) ^ Z.of_nat (S n) == (3 # 4) * (3 # 4) ^ Z.of_nat n)%Q.
Proof.
  rewrite Nat2Z.inj_succ, <- Z.add_1_l.
  rewrite Qpower_plus by discriminate. reflexivity.
Qed.

Lemma kWeight_pow_range (n : nat) :
  (0 < (3 # 4) ^ Z.of_nat n)%Q /\ ((3 # 4) ^ Z.of_nat n <= 1)%Q.
Proof.
  induction n as [| n [IH1 IH2]].
  - split; [reflexivity | discriminate].
  - rewrite kWeight_pow_succ. split; nra.
Qed.

Lemma kWeight_pow_below_one (n : nat) :
  (1 <= n)%nat -> ((3 # 4) ^ Z.of_nat n < 1)%Q.
Proof.
  destruct n as [| n]; [lia |]. intros _.
  rewrite kWeight_pow_succ. destruct (kWeight_pow_range n). nra.
Qed.

Lemma powf_kWeight (n : nat) :
  exists p : Q, powf kWeight (Z.of_nat n) = Fin p /\ (p == (3 # 4) ^ Z.of_nat n)%Q.
Proof.
  unfold powf, kWeight. destruct (Z.eqb_spec (Z.of_nat n) 0) as [E | _].
  - exists 1%Q. split; [reflexivity |]. now rewrite E.
  - cbn [Qeq_bool andb]. change (Qeq_bool (3 # 4) 0) with false. cbn [andb].
    eexists. split; [reflexivity | apply Qred_correct].
Qed.

Lemma weight_norm_value (n : nat) :
  (1 <= n)%nat ->
  exists v : Q,
    weight_norm (Z.of_nat n) = Fin v /\
    (v == (1 - (3 # 4) ^ Z.of_nat n) / (1 - (3 # 4)))%Q /\ (0 < v)%Q.
Proof.
  intros Hn. unfold weight_norm.
  destruct (powf_kWeight n) as (p & -> & Hp).
  pose proof (kWeight_pow_below_one n Hn) as Hlt.
  cbn [fsub kWeight].
  change (Qred (1 - (3 # 4))) with (1 # 4)%Q.
  rewrite fdiv_by_positive by reflexivity.
  eexists. split; [reflexivity |].
  assert (E : (Qred (Qred (1 - p) / (1 # 4))
               == (1 - (3 # 4) ^ Z.of_nat n) / (1 - (3 # 4)))%Q).
  { rewrite !Qred_correct, Hp. field. }
  split; [exact E |]. rewrite E. apply Qdiv_pos; [lra | reflexivity].
Qed.

Lemma qsum_app (l l' : list Q) : (qsum (l ++ l') == qsum l + qsum l')%Q.
Proof.
  induction l as [| x l IH]; simpl; [ring | rewrite IH; ring].
Qed.

Lemma geometric_sum (n : nat) :
  (qsum (map (fun i => (3 # 4) ^ Z.of_nat i) (seq 0 n)) * (1 - (3 # 4))
   == 1 - (3 # 4) ^ Z.of_nat n)%Q.
Proof.
  induction n as [| n IH].
  - reflexivity.
  - rewrite seq_S, map_app, qsum_app. cbn [map qsum Nat.add].
    rewrite kWeight_pow_succ.
    set (r := ((3 # 4) ^ Z.of_nat n)%Q) in *.
    set (tot := qsum (map (fun i => ((3 # 4) ^ Z.of_nat i)%Q) (seq 0 n))) in *.
    change (qsum [r]) with (r + 0)%Q. lra.
Qed.

Lemma make_weights_values (n : nat) (v : Q) :
  weight_norm (Z.of_nat n) = Fin v -> (0 < v)%Q ->
  forall l : list nat,
  exists qs : list Q,
    map (fun i => fdiv (powf kWeight (Z.of_nat i)) (weight_norm (Z.of_nat n))) l
    = map Fin qs /\
    (qsum qs == qsum (map (fun i => (3 # 4) ^ Z.of_nat i) l) / v)%Q.
Proof.
  intros Hv Hpos l. rewrite Hv. induction l as [| i l (qs & E & Hs)].
  - exists []. split; [reflexivity |]. simpl. field. lra.
  - destruct (powf_kWeight i) as (p & Hp & Hpv).
    exists (Qred (p / v) :: qs). split.
    + simpl map. rewrite Hp, fdiv_by_positive by exact Hpos. now rewrite E.
    + change (qsum (Qred (p / v) :: qs)) with (Qred (p / v) + qsum qs)%Q.
      change (qsum (map (fun k => ((3 # 4) ^ Z.of_nat k)%Q) (i :: l)))
        with ((3 # 4) ^ Z.of_nat i
              + qsum (map (fun k => ((3 # 4) ^ Z.of_nat k)%Q) l))%Q.
      rewrite Hs, Qred_correct, Hpv. field. lra.
Qed.

(** Whatever sample count of at least 1 the weights are computed for, there
    is one weight per sample and, in exact arithmetic, they sum to 1. *)
Theorem weights_sum_to_one_for_any_count (count : Z) :
  1 <= count ->
  length (make_weights count) = Z.to_nat count /\
  exists q : Q,
    fold_left fadd (make_weights count) (Fin 0) = Fin q /\ (q == 1)%Q.
Proof.
  intros Hc. unfold make_weights. split; [now rewrite length_map, length_seq |].
  rewrite <- (Z2Nat.id count) by lia. rewrite Nat2Z.id.
  set (n := Z.to_nat count). assert (Hn : (1 <= n)%nat) by (unfold n; lia).
  destruct (weight_norm_value n Hn) as (v & Hv & Hval & Hpos).
  destruct (make_weights_values n v Hv Hpos (seq 0 n)) as (qs & E & Hs).
  rewrite E. destruct (sum_fold_value qs 0) as (q & Hq & Hqv).
  exists q. split; [exact Hq |].
  rewrite Hqv, Hs, Qplus_0_l.
  pose proof (geometric_sum n) as G.
  pose proof (kWeight_pow_below_one n Hn) as Hlt.
  assert (Hv' : (v * (1 - (3 # 4)) == 1 - (3 # 4) ^ Z.of_nat n)%Q)
    by (rewrite Hval; field; discriminate).
  set (tot := qsum (map (fun i => ((3 # 4) ^ Z.of_nat i)%Q) (seq 0 n))) in *.
  set (r := ((3 # 4) ^ Z.of_nat n)%Q) in *.
  assert (ES : (tot == v)%Q) by nra.
  rewrite ES. field. lra.
Qed.

Lemma weights_sum_to_one_for_any_count_witness :
  length (make_weights 7) = Z.to_nat 7 /\
  exists q : Q,
    fold_left fadd (make_weights 7) (Fin 0) = Fin q /\ (q == 1)%Q.
Proof.
  apply (weights_sum_to_one_for_any_count 7). lia.
Defined.
